(** * Image content analyzer: skin heuristic, keyword classifier, orchestration

    A shallow embedding of the TypeScript sources
      - [utils/cache.ts]              (TTL cache),
      - [skinDetection.ts]            (per-pixel skin test, sampling scan, verdict),
      - [tesseractDetection.ts]       (keyword classifier over OCR text),
      - [combinedImageAnalysis.ts]    (single-image and batch orchestration),
    followed by the properties of the specification that were checked
    against them.

    Numbers.  A JavaScript number is an IEEE 754 binary64 value; it is
    modelled by Rocq's primitive [float], whose operations are the binary64
    operations, so every arithmetic step and every comparison below is the
    one the program performs.  Counters, indices, byte values and epoch
    milliseconds stay far below 2^53; they are kept as [nat] or [Z] and
    injected with [Number] where the program divides or compares them as
    numbers. *)

From Stdlib Require Import ZArith Bool Lia Ascii String Floats.
From stdpp Require Import base option list strings gmap.

Set Warnings "-inexact-float".

(** ** JavaScript numbers *)

Module JS.

Local Open Scope float_scope.

(** The number denoted by an integer (exact for magnitudes below 2^53). *)
Definition Number (z : Z) : float :=
  match z with
  | Z0 => 0
  | Zpos _ => of_uint63 (Uint63.of_Z z)
  | Zneg p => - of_uint63 (Uint63.of_Z (Zpos p))
  end.

(** [x > y] on numbers: false as soon as one side is NaN. *)
Definition gt (x y : float) : bool := y <? x.
Definition lt (x y : float) : bool := x <? y.

(** [Math.max(x, y)]: NaN if either is NaN, and +0 is larger than -0. *)
Definition Math_max (x y : float) : float :=
  if is_nan x || is_nan y then nan
  else if x <? y then y
  else if y <? x then x
  else if get_sign x then y else x.

(** [Math.min(x, y)]: NaN if either is NaN, and -0 is smaller than +0. *)
Definition Math_min (x y : float) : float :=
  if is_nan x || is_nan y then nan
  else if x <? y then x
  else if y <? x then y
  else if get_sign x then x else y.

(** [Math.max(...xs)]: the fold starts from -Infinity. *)
Definition Math_max_list (xs : list float) : float :=
  fold_left Math_max xs neg_infinity.

(** [Math.round(x)]: the closest integer, ties towards +Infinity; the sign
    of a zero result is the sign of [x]. *)
Definition Math_round (x : float) : float :=
  match Prim2SF x with
  | S754_finite s m e =>
      if (0 <=? e)%Z then x
      else
        let twice := (if s then Z.neg m~0 else Z.pos m~0)%Z in
        let n := ((twice + 2 ^ (- e)) / 2 ^ (1 - e))%Z in
        if (n =? 0)%Z then (if s then neg_zero else zero) else Number n
  | _ => x
  end.

(** [x % y] on numbers: the remainder of the truncating division, exact,
    with the sign of the dividend. *)
Definition rem (x y : float) : float :=
  match Prim2SF x, Prim2SF y with
  | S754_nan, _ | _, S754_nan => nan
  | S754_infinity _, _ => nan
  | _, S754_zero _ => nan
  | _, S754_infinity _ => x
  | S754_zero _, _ => x
  | S754_finite sx mx ex, S754_finite _ my ey =>
      let e := Z.min ex ey in
      let X := (Z.pos mx * 2 ^ (ex - e))%Z in
      let Y := (Z.pos my * 2 ^ (ey - e))%Z in
      let R := Z.rem X Y in
      if (R =? 0)%Z then (if sx then neg_zero else zero)
      else
        let f := Z.ldexp (of_uint63 (Uint63.of_Z R)) e in
        if sx then - f else f
  end.

(** [x || 0] on a number: 0 replaces the falsy numbers (zeros and NaN). *)
Definition or_zero (x : float) : float :=
  if is_nan x || is_zero x then 0 else x.

End JS.

(** ** skinDetection.ts: the per-pixel test *)

Section SkinPixel.

Local Open Scope float_scope.
Import JS.

(** [isSkinPixel(r, g, b)].  The three arguments are elements of a raw
    byte [Buffer]; sums, differences, products, [Math.max], [Math.min] and
    [Math.abs] of bytes are exact in binary64, so they are computed in [Z]
    and each division is the binary64 division of the two integers. *)
Definition isSkinPixel (r g b : Z) : bool :=
  (* RGB classifier *)
  let rgbClassifier :=
    (r >? 95)%Z && ((g >? 40)%Z && (g <? 100)%Z) && (b >? 20)%Z &&
    (Z.max r (Z.max g b) - Z.min r (Z.min g b) >? 15)%Z &&
    (Z.abs (r - g) >? 15)%Z && (r >? g)%Z && (r >? b)%Z in
  (* Normalized RGB classifier *)
  let sum := (r + g + b)%Z in
  if (sum =? 0)%Z then false else
  let nr := Number r / Number sum in
  let ng := Number g / Number sum in
  let normRgbClassifier :=
    gt (nr / ng) 1.185 &&
    gt (Number (r * b) / Number (sum * sum)) 0.107 &&
    gt (Number (r * g) / Number (sum * sum)) 0.112 in
  (* HSV classifier *)
  let mx := Z.max r (Z.max g b) in
  let mn := Z.min r (Z.min g b) in
  let dif := (mx - mn)%Z in
  let h :=
    if negb (dif =? 0)%Z then
      let h :=
        if (mx =? r)%Z then rem (Number (g - b) / Number dif) 6
        else if (mx =? g)%Z then Number (b - r) / Number dif + 2
        else Number (r - g) / Number dif + 4 in
      let h := h * 60 in
      if lt h 0 then h + 360 else h
    else 0 in
  let s := if (mx =? 0)%Z then 0 else 1 - 3 * (Number mn / Number sum) in
  let hsvClassifier := gt h 0 && lt h 35 && gt s 0.23 && lt s 0.68 in
  rgbClassifier || normRgbClassifier || hsvClassifier.

End SkinPixel.

(** ** skinDetection.ts: result types *)

Module ImageAnalysisResult.
Record t := make {
  isExplicit : bool;
  skinPercentage : float;
  confidence : float
}.
End ImageAnalysisResult.

(** What [sharp(...).resize(100, 100).raw().toBuffer()] resolves to: the
    byte buffer and the [info] fields the scan reads. *)
Record RawImage := {
  data : list Z;
  width : nat;
  height : nat;
  channels : nat
}.

(** The mutable locals of the scan: [skinPixels], [totalPixels] and the
    recorded coordinates [skinRegions]. *)
Record Point := { x : nat; y : nat }.

Record ScanState := {
  skinPixels : nat;
  totalPixels : nat;
  skinRegions : list Point
}.

Section SkinScan.

Local Open Scope float_scope.
Import JS.

(** [isSkinPixel] on what [data[i]], [data[i + 1]], [data[i + 2]] yield.
    A read past the end of the buffer yields [undefined], which every
    comparison and every arithmetic step of [isSkinPixel] turns into NaN:
    the three classifiers are then false and the sum is not [=== 0]. *)
Definition isSkinSample (r g b : option Z) : bool :=
  match r, g, b with
  | Some r, Some g, Some b => isSkinPixel r g b
  | _, _, _ => false
  end.

(** The early-exit test at the end of the loop body. *)
Definition earlyExit (skin total : nat) : bool :=
  (100 <? total)%nat &&
  gt (Number (Z.of_nat skin) / Number (Z.of_nat total)) 0.35.

(** [for (let i = 0; i < data.length; i += channels * 8) { ... }].
    [fuel] bounds the number of evaluations of the loop condition; [None]
    means the bound was reached before the loop ended.  The coordinates
    are [(i / channels) % width] and [floor((i / channels) / width)]; [i]
    is a multiple of [channels], so the first quotient is exact (the model
    assumes [width >= 1], as for any decoded image). *)
Fixpoint scanLoop (fuel : nat) (data : list Z) (width channels : nat)
    (i : nat) (st : ScanState) : option ScanState :=
  match fuel with
  | O => None
  | S fuel =>
      if (i <? length data)%nat then
        let r := data !! i in
        let g := data !! (i + 1)%nat in
        let b := data !! (i + 2)%nat in
        let total := S (totalPixels st) in
        let st :=
          if isSkinSample r g b then
            {| skinPixels := S (skinPixels st);
               totalPixels := total;
               skinRegions :=
                 skinRegions st ++
                 [ {| x := ((i / channels) mod width)%nat;
                      y := ((i / channels) / width)%nat |} ] |}
          else
            {| skinPixels := skinPixels st;
               totalPixels := total;
               skinRegions := skinRegions st |} in
        if earlyExit (skinPixels st) (totalPixels st) then Some st
        else scanLoop fuel data width channels (i + channels * 8)%nat st
      else Some st
  end.

Definition scanStart : ScanState :=
  {| skinPixels := 0; totalPixels := 0; skinRegions := [] |}.

(** The whole loop.  With [channels >= 1] the index grows by at least 8
    per iteration, so [length data + 1] evaluations of the condition are
    enough (lemma [scan_terminates]). *)
Definition scan (img : RawImage) : option ScanState :=
  scanLoop (S (length (data img))) (data img) (width img) (channels img)
    0 scanStart.

(** Lines 116-138: the verdict computed from the locals once the loop is
    left. *)
Definition verdict (st : ScanState) : ImageAnalysisResult.t :=
  let skinPercentage :=
    if (0 <? totalPixels st)%nat
    then Number (Z.of_nat (skinPixels st)) / Number (Z.of_nat (totalPixels st)) * 100
    else 0 in
  (* Simple clustering check *)
  let hasLargeSkinRegions :=
    (30 <? length (skinRegions st))%nat && gt skinPercentage 15 in
  (* Determine if explicit *)
  let isExplicit :=
    gt skinPercentage 35 || (gt skinPercentage 25 && hasLargeSkinRegions) in
  (* Calculate confidence *)
  let confidence :=
    if gt skinPercentage 40 then 0.9
    else if gt skinPercentage 30 then 0.7
    else if gt skinPercentage 20 then 0.5
    else 0.3 in
  let confidence :=
    if hasLargeSkinRegions then confidence + 0.2 else confidence in
  let confidence := Math_min confidence 1.0 in
  {| ImageAnalysisResult.isExplicit := isExplicit;
     ImageAnalysisResult.skinPercentage := Math_round (skinPercentage * 100) / 100;
     ImageAnalysisResult.confidence := Math_round (confidence * 100) / 100 |}.

(** The value of the [catch] branch. *)
Definition skinFailure : ImageAnalysisResult.t :=
  {| ImageAnalysisResult.isExplicit := false;
     ImageAnalysisResult.skinPercentage := 0;
     ImageAnalysisResult.confidence := 0 |}.

(** [analyzeImageForExplicitContent].  Fetching and decoding are the
    external collaborator: [decoded] is [None] when the fetch or the
    decoder throws inside the [try], and the raw image otherwise.  The
    result is [None] only when the scan loop does not end. *)
Definition analyzeImageForExplicitContent (decoded : option RawImage)
    : option ImageAnalysisResult.t :=
  match decoded with
  | None => Some skinFailure
  | Some img =>
      match scan img with
      | Some st => Some (verdict st)
      | None => None
      end
  end.

End SkinScan.

(** ** tesseractDetection.ts: the keyword classifier

    A text is a [string] of 8-bit code units, read as the code units 0-255
    of a JavaScript string. *)

Module TextAnalysisResult.
Record t := make {
  hasExplicitText : bool;
  confidence : float;
  detectedWords : list string;
  categories : list string;
  extractedText : string
}.
End TextAnalysisResult.

(** Explicit content keywords categorized, in the order of
    [Object.entries]. *)
Definition EXPLICIT_KEYWORDS : list (string * list string) :=
  [ ("nudity",
      ["nude"; "naked"; "undressed"; "topless"; "bottomless"; "bare";
       "exposed"; "revealing"; "strip"; "bikini"; "underwear"; "lingerie"]);
    ("sexual",
      ["sex"; "sexual"; "porn"; "xxx"; "adult"; "erotic"; "intimate";
       "orgasm"; "masturbate"; "horny"; "sexy"; "seduce"; "arousal";
       "pleasure"; "kinky"; "fetish"; "bdsm"; "escort"; "hookup"]);
    ("pornography",
      ["pornography"; "pornographic"; "porn"; "xxx"; "adult film";
       "sex tape"; "webcam"; "camgirl"; "onlyfans"; "premium content";
       "adult content"; "nsfw"; "explicit"; "mature content"]);
    ("violence",
      ["violence"; "violent"; "fight"; "attack"; "assault"; "abuse";
       "hit"; "punch"; "kick"; "slap"; "beat"; "torture"; "harm";
       "hurt"; "wound"; "injure"; "threat"; "weapon"; "gun"; "knife"]);
    ("gore",
      ["gore"; "blood"; "bleeding"; "wound"; "injury"; "death"; "dead";
       "corpse"; "murder"; "kill"; "suicide"; "mutilation"; "dismember";
       "brutal"; "savage"; "graphic"; "disturbing"; "gruesome"]) ]%string.

Section Text.

Local Open Scope N_scope.

Definition inRange (lo hi : N) (c : ascii) : bool :=
  (lo <=? N_of_ascii c) && (N_of_ascii c <=? hi).

(** The class [\w]: [A-Za-z0-9_]. *)
Definition isWordChar (c : ascii) : bool :=
  inRange 48 57 c || inRange 65 90 c || (N_of_ascii c =? 95) || inRange 97 122 c.

(** The class [\s], which is also what [trim] strips: TAB, LF, VT, FF,
    CR, SPACE and NO-BREAK SPACE are its members below 256. *)
Definition isSpaceChar (c : ascii) : bool :=
  inRange 9 13 c || (N_of_ascii c =? 32) || (N_of_ascii c =? 160).

(** [toLowerCase] on one code unit below 256: A-Z and the capital
    letters U+00C0-U+00DE other than the multiplication sign. *)
Definition toLowerChar (c : ascii) : ascii :=
  if inRange 65 90 c || (inRange 192 222 c && negb (N_of_ascii c =? 215))
  then ascii_of_N (N_of_ascii c + 32) else c.

(** Case folding of a regular expression with the [i] flag: the
    upper-case form, which is one-to-one on the letters it moves. *)
Definition canonicalize (c : ascii) : N :=
  if inRange 97 122 c || (inRange 224 254 c && negb (N_of_ascii c =? 247))
  then N_of_ascii c - 32 else N_of_ascii c.

Definition space : ascii := ascii_of_N 32.

Fixpoint mapString (f : ascii -> ascii) (s : string) : string :=
  match s with
  | EmptyString => EmptyString
  | String c s => String (f c) (mapString f s)
  end.

Definition toLowerCase : string -> string := mapString toLowerChar.

(** [.replace(/[^\w\s]/g, ' ')] *)
Definition removePunctuation : string -> string :=
  mapString (fun c => if isWordChar c || isSpaceChar c then c else space).

(** [.replace(/\s+/g, ' ')]: [inRun] tells that the previous code unit
    was white space. *)
Fixpoint collapseSpaces (inRun : bool) (s : string) : string :=
  match s with
  | EmptyString => EmptyString
  | String c s =>
      if isSpaceChar c
      then (if inRun then collapseSpaces true s
            else String space (collapseSpaces true s))
      else String c (collapseSpaces false s)
  end.

Fixpoint trimStart (s : string) : string :=
  match s with
  | EmptyString => EmptyString
  | String c s' => if isSpaceChar c then trimStart s' else s
  end.

Fixpoint trimEnd (s : string) : string :=
  match s with
  | EmptyString => EmptyString
  | String c s' =>
      match trimEnd s' with
      | EmptyString => if isSpaceChar c then EmptyString else String c EmptyString
      | t => String c t
      end
  end.

Definition trim (s : string) : string := trimEnd (trimStart s).

(** Clean and normalize text for analysis *)
Definition normalizeText (text : string) : string :=
  trim (collapseSpaces false (removePunctuation (toLowerCase text))).

(** [haystack.includes(needle)] *)
Fixpoint includes (haystack needle : string) : bool :=
  String.prefix needle haystack ||
  match haystack with
  | EmptyString => false
  | String _ rest => includes rest needle
  end.

(** Matching the keyword literally (the source escapes its
    metacharacters) and case-insensitively at the head of [s].  The result
    is the rest of [s] and whether the last code unit read, or else the
    one before [s], is a word character. *)
Fixpoint matchLiteral (keyword s : string) (prevIsWord : bool)
    : option (bool * string) :=
  match keyword, s with
  | EmptyString, _ => Some (prevIsWord, s)
  | String k keyword, String c s =>
      if canonicalize k =? canonicalize c
      then matchLiteral keyword s (isWordChar c)
      else None
  | String _ _, EmptyString => None
  end.

Definition headIsWord (s : string) : bool :=
  match s with
  | EmptyString => false
  | String c _ => isWordChar c
  end.

(** The assertion [\b] between two positions. *)
Definition wordBoundary (before after : bool) : bool := xorb before after.

(** [new RegExp('\\b' + escaped(keyword) + '\\b', 'i').test(s)], trying
    every start position from left to right; [prevIsWord] describes the
    code unit before [s]. *)
Fixpoint regexTestFrom (keyword : string) (prevIsWord : bool) (s : string) : bool :=
  (wordBoundary prevIsWord (headIsWord s) &&
   match matchLiteral keyword s prevIsWord with
   | Some (lastIsWord, rest) => wordBoundary lastIsWord (headIsWord rest)
   | None => false
   end) ||
  match s with
  | EmptyString => false
  | String c rest => regexTestFrom keyword (isWordChar c) rest
  end.

Definition regexTest (keyword text : string) : bool :=
  regexTestFrom keyword false text.

(** The test of line 71. *)
Definition keywordHit (normalizedText keyword : string) : bool :=
  regexTest keyword normalizedText || includes normalizedText keyword.

End Text.

(** [Set.prototype.add] on a set kept in insertion order. *)
Definition setAdd (x : string) (s : list string) : list string :=
  if bool_decide (x ∈ s) then s else s ++ [x].

(** [[...new Set(xs)]] *)
Definition dedupe (xs : list string) : list string :=
  fold_left (fun s x => setAdd x s) xs [].

(** The locals [detectedWords], [categories], [totalMatches] of
    [analyzeTextContent]. *)
Module Matches.
Record t := make {
  detectedWords : list string;
  categories : list string;
  totalMatches : nat
}.
Definition empty : t := make [] [] 0.
End Matches.

(** The value [analyzeTextContent] returns. *)
Module TextContent.
Record t := make {
  detectedWords : list string;
  categories : list string;
  confidence : float
}.
End TextContent.

(** What [Tesseract.recognize] does inside the [try] of [analyzeImageText]:
    it throws, or it resolves to [data] whose [text] may be missing. *)
Inductive Recognition :=
  | RecognizeFailed
  | Recognized (text : option string).

Section TextClassifier.

Import JS.

(** Body of the inner [forEach] (one keyword of one category). *)
Definition keywordStep (normalizedText category : string)
    (acc : Matches.t) (keyword : string) : Matches.t :=
  if keywordHit normalizedText keyword then
    {| Matches.detectedWords := Matches.detectedWords acc ++ [keyword];
       Matches.categories := setAdd category (Matches.categories acc);
       Matches.totalMatches := S (Matches.totalMatches acc) |}
  else acc.

(** Body of the outer [forEach] (one category). *)
Definition categoryStep (normalizedText : string) (acc : Matches.t)
    (entry : string * list string) : Matches.t :=
  fold_left (keywordStep normalizedText (fst entry)) (snd entry) acc.

Definition scanKeywords (catalog : list (string * list string))
    (normalizedText : string) : Matches.t :=
  fold_left (categoryStep normalizedText) catalog Matches.empty.

(** Check if text contains explicit content *)
Definition analyzeTextContent (text : string) : TextContent.t :=
  let normalizedText := normalizeText text in
  let acc := scanKeywords EXPLICIT_KEYWORDS normalizedText in
  (* Calculate confidence based on matches and text length *)
  let confidence :=
    Math_min (Number (Z.of_nat (Matches.totalMatches acc)) * 0.3)%float 1.0%float in
  {| TextContent.detectedWords := dedupe (Matches.detectedWords acc);
     TextContent.categories := Matches.categories acc;
     TextContent.confidence := confidence |}.

(** The empty/zero text result, written out at four places in the
    sources. *)
Definition emptyTextAnalysis : TextAnalysisResult.t :=
  {| TextAnalysisResult.hasExplicitText := false;
     TextAnalysisResult.confidence := 0%float;
     TextAnalysisResult.detectedWords := [];
     TextAnalysisResult.categories := [];
     TextAnalysisResult.extractedText := "" |}.

(** [analyzeImageText], given what the OCR engine did. *)
Definition analyzeImageText (ocr : Recognition) : TextAnalysisResult.t :=
  match ocr with
  | RecognizeFailed => emptyTextAnalysis
  | Recognized text =>
      let extractedText :=
        match text with
        | Some text => trim text
        | None => ""%string
        end in
      if String.eqb extractedText "" then emptyTextAnalysis
      else
        (* Analyze the extracted text *)
        let analysis := analyzeTextContent extractedText in
        let hasExplicitText :=
          (0 <? length (TextContent.detectedWords analysis))%nat &&
          gt (TextContent.confidence analysis) 0.3%float in
        {| TextAnalysisResult.hasExplicitText := hasExplicitText;
           TextAnalysisResult.confidence := TextContent.confidence analysis;
           TextAnalysisResult.detectedWords := TextContent.detectedWords analysis;
           TextAnalysisResult.categories := TextContent.categories analysis;
           TextAnalysisResult.extractedText := extractedText |}
  end.

End TextClassifier.

(** ** utils/cache.ts: the TTL cache

    [Date.now()] is an input of the program: [clock n] is the value of the
    [n]-th reading, and the number of readings made so far is threaded
    next to the map.  The [try]/[catch] wrappers guard [Map] operations
    that do not throw. *)

Record CacheEntry (V : Type) := {
  entryData : V;
  expiry : Z
}.
Arguments entryData {V} _.
Arguments expiry {V} _.

Section TTLCache.

Context {V : Type}.
Variable clock : nat -> Z.

(** Set cache entry with expiration *)
Definition safeSetCache (key : string) (value : V) (ttlSeconds : Z)
    (st : gmap string (CacheEntry V) * nat) : gmap string (CacheEntry V) * nat :=
  let '(cache, n) := st in
  let expiry := (clock n + ttlSeconds * 1000)%Z in
  (<[key := {| entryData := value; expiry := expiry |}]> cache, S n).

(** Get cache entry if not expired *)
Definition safeGetCache (key : string)
    (st : gmap string (CacheEntry V) * nat)
    : option V * (gmap string (CacheEntry V) * nat) :=
  let '(cache, n) := st in
  match cache !! key with
  | None => (None, (cache, n))
  | Some entry =>
      if (clock n >? expiry entry)%Z
      then (None, (delete key cache, S n))
      else (Some (entryData entry), (cache, S n))
  end.

End TTLCache.

(** The two maintenance functions of the module. *)
Section TTLCacheSweep.

Context {V : Type}.
Variable clock : nat -> Z.

(** Clear expired entries: [Date.now()] is read once, then every entry
    with [now > entry.expiry] is deleted. *)
Definition clearExpiredCache (st : gmap string (CacheEntry V) * nat)
    : gmap string (CacheEntry V) * nat :=
  let '(cache, n) := st in
  let now := clock n in
  (filter (fun kv => ~ (now > expiry (snd kv))%Z) cache, S n).

(** Clear all cache entries *)
Definition clearCache (st : gmap string (CacheEntry V) * nat)
    : gmap string (CacheEntry V) * nat :=
  let '(cache, n) := st in (∅, n).

End TTLCacheSweep.

(** ** combinedImageAnalysis.ts *)

Module ImageAnalysisDetail.
Record t := make {
  url : string;
  isExplicit : bool;
  skinPercentage : float;
  confidence : float;
  textAnalysis : option TextAnalysisResult.t
}.
End ImageAnalysisDetail.

Module ExplicitContentAnalysis.
Record t := make {
  hasExplicitContent : bool;
  confidence : float;
  details : list ImageAnalysisDetail.t;
  hasExplicitText : bool;
  textConfidence : float;
  detectedCategories : list string
}.
End ExplicitContentAnalysis.

(** The process-wide cache.  The two orchestrators use it under keys
    that start with [image-analysis:] and with [batch-image-analysis:],
    and cast what they read to [ImageAnalysisDetail] and to
    [ExplicitContentAnalysis]; the two key families are disjoint, so the
    map is kept as one typed map per family. *)
Record World := {
  imageCache : gmap string (CacheEntry ImageAnalysisDetail.t);
  batchCache : gmap string (CacheEntry ExplicitContentAnalysis.t);
  ticks : nat
}.

Definition emptyWorld : World :=
  {| imageCache := ∅; batchCache := ∅; ticks := 0 |}.

(** How an awaited promise settles. *)
Inductive Settled (A : Type) :=
  | Resolved (a : A)
  | Rejected.
Arguments Resolved {A} _.
Arguments Rejected {A}.

(** [array.join(',')] on an array of strings. *)
Fixpoint join (sep : string) (xs : list string) : string :=
  match xs with
  | [] => ""
  | [s] => s
  | s :: rest => s +:+ sep +:+ join sep rest
  end.

Section Orchestration.

Import JS.

(** The three things the orchestrators await or read:
    - [Date.now()];
    - [analyzeImageForExplicitContent(imageUrl)];
    - [withTimeout(analyzeImageText(imageUrl), 3000)], rejected when the
      timer wins the race. *)
Variable clock : nat -> Z.
Variable skinAnalysisOf : string -> Settled ImageAnalysisResult.t.
Variable textAnalysisOf : string -> Settled TextAnalysisResult.t.

Definition imageCacheKey (imageUrl : string) : string :=
  "image-analysis:" +:+ imageUrl.

Definition batchCacheKey (imageUrls : list string) : string :=
  "batch-image-analysis:" +:+ join "," imageUrls.

Definition getImageCache (key : string) (w : World)
    : option ImageAnalysisDetail.t * World :=
  let '(r, (c, n)) := safeGetCache clock key (imageCache w, ticks w) in
  (r, {| imageCache := c; batchCache := batchCache w; ticks := n |}).

Definition setImageCache (key : string) (value : ImageAnalysisDetail.t)
    (ttlSeconds : Z) (w : World) : World :=
  let '(c, n) := safeSetCache clock key value ttlSeconds (imageCache w, ticks w) in
  {| imageCache := c; batchCache := batchCache w; ticks := n |}.

Definition getBatchCache (key : string) (w : World)
    : option ExplicitContentAnalysis.t * World :=
  let '(r, (c, n)) := safeGetCache clock key (batchCache w, ticks w) in
  (r, {| imageCache := imageCache w; batchCache := c; ticks := n |}).

Definition setBatchCache (key : string) (value : ExplicitContentAnalysis.t)
    (ttlSeconds : Z) (w : World) : World :=
  let '(c, n) := safeSetCache clock key value ttlSeconds (batchCache w, ticks w) in
  {| imageCache := imageCache w; batchCache := c; ticks := n |}.

(** The [try] block of [analyzeImageFast] with its [catch]: the result
    and the TTL it is cached with. *)
Definition analyzeUncached (imageUrl : string) : ImageAnalysisDetail.t * Z :=
  match skinAnalysisOf imageUrl with
  | Resolved skinAnalysis =>
      (* If skin analysis already shows high confidence, skip OCR *)
      if ImageAnalysisResult.isExplicit skinAnalysis &&
         gt (ImageAnalysisResult.confidence skinAnalysis) 0.7%float
      then
        ({| ImageAnalysisDetail.url := imageUrl;
            ImageAnalysisDetail.isExplicit := true;
            ImageAnalysisDetail.skinPercentage :=
              ImageAnalysisResult.skinPercentage skinAnalysis;
            ImageAnalysisDetail.confidence :=
              ImageAnalysisResult.confidence skinAnalysis;
            ImageAnalysisDetail.textAnalysis := Some emptyTextAnalysis |},
         300%Z)
      else
        (* Try OCR with timeout (3 seconds max) *)
        let textAnalysis :=
          match textAnalysisOf imageUrl with
          | Resolved textAnalysis => textAnalysis
          | Rejected => emptyTextAnalysis
          end in
        (* Combine results *)
        let combinedConfidence :=
          Math_max (ImageAnalysisResult.confidence skinAnalysis)
                   (TextAnalysisResult.confidence textAnalysis * 0.8)%float in
        let isExplicit :=
          ImageAnalysisResult.isExplicit skinAnalysis ||
          (TextAnalysisResult.hasExplicitText textAnalysis &&
           gt (TextAnalysisResult.confidence textAnalysis) 0.4%float) in
        ({| ImageAnalysisDetail.url := imageUrl;
            ImageAnalysisDetail.isExplicit := isExplicit;
            ImageAnalysisDetail.skinPercentage :=
              ImageAnalysisResult.skinPercentage skinAnalysis;
            ImageAnalysisDetail.confidence := combinedConfidence;
            ImageAnalysisDetail.textAnalysis := Some textAnalysis |},
         300%Z)
  | Rejected =>
      (* catch: cache failed result for 1 minute *)
      ({| ImageAnalysisDetail.url := imageUrl;
          ImageAnalysisDetail.isExplicit := false;
          ImageAnalysisDetail.skinPercentage := 0%float;
          ImageAnalysisDetail.confidence := 0%float;
          ImageAnalysisDetail.textAnalysis := Some emptyTextAnalysis |},
       60%Z)
  end.

(** [analyzeImageFast] up to its first [await]: the cache check. *)
Definition startAnalysis (imageUrl : string) (w : World)
    : option ImageAnalysisDetail.t * World :=
  getImageCache (imageCacheKey imageUrl) w.

(** [analyzeImageFast] after a cache miss: the analysis, then
    [safeSetCache(cacheKey, result, ttl)]. *)
Definition finishAnalysis (imageUrl : string) (w : World)
    : ImageAnalysisDetail.t * World :=
  let '(result, ttl) := analyzeUncached imageUrl in
  (result, setImageCache (imageCacheKey imageUrl) result ttl w).

(** Fast image analysis - prioritizes skin detection, OCR with timeout *)
Definition analyzeImageFast (imageUrl : string) (w : World)
    : ImageAnalysisDetail.t * World :=
  let '(cachedResult, w) := startAnalysis imageUrl w in
  match cachedResult with
  | Some cached => (cached, w)
  | None => finishAnalysis imageUrl w
  end.

(** [batch.map(url => analyzeImageFast(url))]: each call runs up to its
    first [await] before the next one starts, so the cache checks of a
    chunk come first, in order. *)
Fixpoint startAll (batch : list string) (w : World)
    : list (string * option ImageAnalysisDetail.t) * World :=
  match batch with
  | [] => ([], w)
  | imageUrl :: batch =>
      let '(cached, w) := startAnalysis imageUrl w in
      let '(started, w) := startAll batch w in
      ((imageUrl, cached) :: started, w)
  end.

(** [await Promise.all(batchPromises)]: the results come in the order of
    the chunk.  The pending analyses are completed in that order too (the
    order in which they really complete changes the expiry times written
    to the cache, not the results). *)
Fixpoint finishAll (started : list (string * option ImageAnalysisDetail.t))
    (w : World) : list ImageAnalysisDetail.t * World :=
  match started with
  | [] => ([], w)
  | (_, Some cached) :: started =>
      let '(batchResults, w) := finishAll started w in
      (cached :: batchResults, w)
  | (imageUrl, None) :: started =>
      let '(result, w) := finishAnalysis imageUrl w in
      let '(batchResults, w) := finishAll started w in
      (result :: batchResults, w)
  end.

Definition runChunk (batch : list string) (w : World)
    : list ImageAnalysisDetail.t * World :=
  let '(started, w) := startAll batch w in
  finishAll started w.

(** [for (let i = 0; i < imageUrls.length; i += batchSize)] with
    [batchSize = 2]: the argument is [imageUrls.slice(i)], the chunk is
    its first two elements, [results.push(...batchResults)] puts the
    results of the chunk before those of the later chunks. *)
Fixpoint runChunks (imageUrls : list string) (w : World)
    : list ImageAnalysisDetail.t * World :=
  match imageUrls with
  | [] => ([], w)
  | [u] => runChunk [u] w
  | u1 :: u2 :: rest =>
      let '(batchResults, w) := runChunk [u1; u2] w in
      let '(results, w) := runChunks rest w in
      (batchResults ++ results, w)
  end.

Definition hasExplicitTextAbove (analysis : ImageAnalysisDetail.t) : bool :=
  match ImageAnalysisDetail.textAnalysis analysis with
  | Some t =>
      TextAnalysisResult.hasExplicitText t &&
      gt (TextAnalysisResult.confidence t) 0.3%float
  | None => false
  end.

(** [img.textAnalysis?.confidence || 0] *)
Definition textConfidenceOf (img : ImageAnalysisDetail.t) : float :=
  match ImageAnalysisDetail.textAnalysis img with
  | Some t => or_zero (TextAnalysisResult.confidence t)
  | None => 0%float
  end.

(** Collect all detected categories *)
Definition collectCategories (results : list ImageAnalysisDetail.t) : list string :=
  fold_left
    (fun allCategories analysis =>
       match ImageAnalysisDetail.textAnalysis analysis with
       | Some t =>
           fold_left (fun s category => setAdd category s)
             (TextAnalysisResult.categories t) allCategories
       | None => allCategories
       end)
    results [].

(** Process results (lines 140-170). *)
Definition aggregate (results : list ImageAnalysisDetail.t)
    : ExplicitContentAnalysis.t :=
  let explicitImages := List.filter ImageAnalysisDetail.isExplicit results in
  let imagesWithExplicitText := List.filter hasExplicitTextAbove results in
  let allCategories := collectCategories results in
  let hasExplicitContent := (0 <? length explicitImages)%nat in
  let hasExplicitText := (0 <? length imagesWithExplicitText)%nat in
  let overallConfidence :=
    if (0 <? length explicitImages)%nat
    then Math_max_list (map ImageAnalysisDetail.confidence explicitImages)
    else 0%float in
  let textConfidence :=
    if (0 <? length imagesWithExplicitText)%nat
    then Math_max_list (map textConfidenceOf imagesWithExplicitText)
    else 0%float in
  {| ExplicitContentAnalysis.hasExplicitContent :=
       hasExplicitContent || hasExplicitText;
     ExplicitContentAnalysis.confidence :=
       Math_max overallConfidence textConfidence;
     ExplicitContentAnalysis.details := results;
     ExplicitContentAnalysis.hasExplicitText := hasExplicitText;
     ExplicitContentAnalysis.textConfidence := textConfidence;
     ExplicitContentAnalysis.detectedCategories := allCategories |}.

(** Analyze multiple images with parallel processing and limits *)
Definition analyzeImagesBatch (imageUrls : list string) (w : World)
    : ExplicitContentAnalysis.t * World :=
  let batchKey := batchCacheKey imageUrls in
  let '(cachedBatchResult, w) := getBatchCache batchKey w in
  match cachedBatchResult with
  | Some cached => (cached, w)
  | None =>
      let '(results, w) := runChunks imageUrls w in
      let batchResult := aggregate results in
      (* Cache batch result for 5 minutes *)
      (batchResult, setBatchCache batchKey batchResult 300 w)
  end.

End Orchestration.

(** [clearCache()] seen from the orchestrators: the one [Map] holds the
    entries of both key families. *)
Definition clearWorldCache (w : World) : World :=
  {| imageCache := fst (clearCache (imageCache w, ticks w));
     batchCache := fst (clearCache (batchCache w, ticks w));
     ticks := ticks w |}.

(** ** The wording of the specification

    Definitions that follow the sentences of the specification, to be
    compared with the functions above. *)

Section SpecWording.

Local Open Scope float_scope.
Import JS.

Definition isByte (v : Z) : Prop := (0 <= v <= 255)%Z.

(** Rule 1: r>95, 40<g<100, b>20, max-min>15, |r-g|>15, r>g, r>b. *)
Definition rgbRule (r g b : Z) : bool :=
  (95 <? r)%Z && (40 <? g)%Z && (g <? 100)%Z && (20 <? b)%Z &&
  (15 <? Z.max r (Z.max g b) - Z.min r (Z.min g b))%Z &&
  (15 <? Z.abs (r - g))%Z && (g <? r)%Z && (b <? r)%Z.

(** Rule 2, skipped when r+g+b = 0. *)
Definition normalizedRgbRule (r g b : Z) : bool :=
  let sum := (r + g + b)%Z in
  if (sum =? 0)%Z then false
  else
    let nr := Number r / Number sum in
    let ng := Number g / Number sum in
    gt (nr / ng) 1.185 &&
    gt (Number (r * b) / Number (sum * sum)) 0.107 &&
    gt (Number (r * g) / Number (sum * sum)) 0.112.

(** Hue in degrees by the max-channel formula, 0 when max = min. *)
Definition hue (r g b : Z) : float :=
  let mx := Z.max r (Z.max g b) in
  let mn := Z.min r (Z.min g b) in
  if (mx =? mn)%Z then 0
  else
    let sextant :=
      if (mx =? r)%Z then rem (Number (g - b) / Number (mx - mn)) 6
      else if (mx =? g)%Z then Number (b - r) / Number (mx - mn) + 2
      else Number (r - g) / Number (mx - mn) + 4 in
    let degrees := sextant * 60 in
    if lt degrees 0 then degrees + 360 else degrees.

(** Saturation 1 - 3 (min/sum), 0 when sum = 0. *)
Definition saturation (r g b : Z) : float :=
  let sum := (r + g + b)%Z in
  if (sum =? 0)%Z then 0
  else 1 - 3 * (Number (Z.min r (Z.min g b)) / Number sum).

(** Rule 3: 0<h<35 and 0.23<s<0.68. *)
Definition hsvRule (r g b : Z) : bool :=
  gt (hue r g b) 0 && lt (hue r g b) 35 &&
  gt (saturation r g b) 0.23 && lt (saturation r g b) 0.68.

(** The [k]-th sampled pixel of a buffer: the three bytes at offset
    [k * channels * 8]. *)
Definition sampleOffset (img : RawImage) (k : nat) : nat :=
  (k * (channels img * 8))%nat.

Definition sampleIsSkin (img : RawImage) (k : nat) : bool :=
  isSkinSample (data img !! sampleOffset img k)
               (data img !! (sampleOffset img k + 1)%nat)
               (data img !! (sampleOffset img k + 2)%nat).

Definition sampleMeetsRgbRule (img : RawImage) (k : nat) : bool :=
  match data img !! sampleOffset img k,
        data img !! (sampleOffset img k + 1)%nat,
        data img !! (sampleOffset img k + 2)%nat with
  | Some r, Some g, Some b => rgbRule r g b
  | _, _, _ => false
  end.

(** Number of skin pixels among the first [k] samples. *)
Fixpoint skinAmong (img : RawImage) (k : nat) : nat :=
  match k with
  | O => O
  | S k => (skinAmong img k + if sampleIsSkin img k then 1 else 0)%nat
  end.

(** Every sample that lies in the buffer satisfies rule 1 (a sample in
    the buffer has an index of at most [length / (channels * 8)]). *)
Definition everySampleMeetsRgbRule (img : RawImage) : bool :=
  forallb
    (fun k => if (sampleOffset img k <? length (data img))%nat
              then sampleMeetsRgbRule img k else true)
    (seq 0 (S (length (data img) / (channels img * 8)))).

(** Rounding to 2 decimals, as the sources do it. *)
Definition round2 (v : float) : float := Math_round (v * 100) / 100.

(** The claimed verdict, read literally: the thresholds are applied to
    [skinPercentage], which is the ratio times 100 rounded to 2
    decimals. *)
Definition claimedVerdict (skin total regions : nat) : ImageAnalysisResult.t :=
  let skinPercentage :=
    round2 (Number (Z.of_nat skin) / Number (Z.of_nat total) * 100) in
  let hasLargeSkinRegions := (30 <? regions)%nat && gt skinPercentage 15 in
  let base :=
    if gt skinPercentage 40 then 0.9
    else if gt skinPercentage 30 then 0.7
    else if gt skinPercentage 20 then 0.5
    else 0.3 in
  let raised := if hasLargeSkinRegions then base + 0.2 else base in
  {| ImageAnalysisResult.isExplicit :=
       gt skinPercentage 35 || (gt skinPercentage 25 && hasLargeSkinRegions);
     ImageAnalysisResult.skinPercentage := skinPercentage;
     ImageAnalysisResult.confidence := round2 (Math_min (Math_max raised 0) 1) |}.

(** The ratio times 100 before rounding (0 for an empty scan). *)
Definition rawPercentage (st : ScanState) : float :=
  if (0 <? totalPixels st)%nat
  then Number (Z.of_nat (skinPixels st)) / Number (Z.of_nat (totalPixels st)) * 100
  else 0.

Definition largeRegions (st : ScanState) : bool :=
  (30 <? length (skinRegions st))%nat && gt (rawPercentage st) 15.

Definition confidenceTier (p : float) : float :=
  if gt p 40 then 0.9
  else if gt p 30 then 0.7
  else if gt p 20 then 0.5
  else 0.3.

(** Every (category, keyword) pair of a catalog, and those that hit a
    normalized text. *)
Definition keywordPairs (catalog : list (string * list string))
    : list (string * string) :=
  flat_map (fun entry => map (pair (fst entry)) (snd entry)) catalog.

Definition matchingPairs (catalog : list (string * list string))
    (normalizedText : string) : list (string * string) :=
  List.filter (fun p => keywordHit normalizedText (snd p)) (keywordPairs catalog).

Definition totalMatchCount (normalizedText : string) : nat :=
  length (matchingPairs EXPLICIT_KEYWORDS normalizedText).

End SpecWording.

(** ** Notions used in the statements and proofs *)

(** What holds of the state in which the loop is left: the counters are
    those of the first [totalPixels] samples, which all lie in the buffer;
    the early-exit test failed at every earlier count; and if a sample
    remains, the loop was left by the early exit. *)
Definition scanPost (img : RawImage) (st : ScanState) : Prop :=
  skinPixels st = skinAmong img (totalPixels st) /\
  length (skinRegions st) = skinPixels st /\
  (forall j, (1 <= j < totalPixels st)%nat ->
             earlyExit (skinAmong img j) j = false) /\
  (forall j, (j < totalPixels st)%nat ->
             (sampleOffset img j < length (data img))%nat) /\
  ((sampleOffset img (totalPixels st) < length (data img))%nat ->
   earlyExit (skinPixels st) (totalPixels st) = true).

(** Every entry of the image cache holds a detail of the URL it is filed
    under, which is what [analyzeImageFast] writes. *)
Definition imageCacheSound (w : World) : Prop :=
  forall u entry,
    imageCache w !! imageCacheKey u = Some entry ->
    ImageAnalysisDetail.url (entryData entry) = u.

(** A started analysis that was answered from the cache holds a detail of
    its own URL. *)
Definition startedSound (s : string * option ImageAnalysisDetail.t) : Prop :=
  forall d, snd s = Some d -> ImageAnalysisDetail.url d = fst s.

Section NumberLine.

Local Open Scope Z_scope.

(** The place of a number on the line: sign class, then exponent, then
    mantissa (both reversed for negative numbers); NaN has no place. *)
Definition rank (f : spec_float) : option (Z * Z * Z) :=
  match f with
  | S754_nan => None
  | S754_zero _ => Some (0, 0, 0)
  | S754_infinity s => Some (if s then -2 else 2, 0, 0)
  | S754_finite s m e =>
      Some (if s then (-1, - e, Z.neg m) else (1, e, Z.pos m))
  end.

Definition before (a b : Z * Z * Z) : Prop :=
  a.1.1 < b.1.1 \/
  (a.1.1 = b.1.1 /\ (a.1.2 < b.1.2 \/ (a.1.2 = b.1.2 /\ a.2 < b.2))).

Definition place (x : float) : option (Z * Z * Z) := rank (Prim2SF x).

End NumberLine.

(** Normalized texts: what [normalizeText] produces. *)
Section NormalForm.

Local Open Scope N_scope.

(** The word characters that survive lower-casing: [a-z0-9_]. *)
Definition isLowerWordChar (c : ascii) : bool :=
  inRange 48 57 c || (N_of_ascii c =? 95) || inRange 97 122 c.

Definition isBlank (c : ascii) : bool := N_of_ascii c =? 32.

(** A non-empty run of words of [a-z0-9_] separated by single blanks. *)
Fixpoint wordsSeparatedByBlanks (s : string) : bool :=
  match s with
  | EmptyString => false
  | String c rest =>
      isLowerWordChar c &&
      match rest with
      | EmptyString => true
      | String d rest' =>
          if isBlank d then wordsSeparatedByBlanks rest'
          else wordsSeparatedByBlanks rest
      end
  end.

(** The empty text, or words separated by single blanks. *)
Definition isNormalized (s : string) : bool :=
  match s with
  | EmptyString => true
  | _ => wordsSeparatedByBlanks s
  end.

(** Characters are word characters or blanks, and no blank follows a
    blank ([afterBlank] tells that a blank precedes [s]). *)
Fixpoint singleBlanks (afterBlank : bool) (s : string) : bool :=
  match s with
  | EmptyString => true
  | String c rest =>
      if isBlank c then negb afterBlank && singleBlanks true rest
      else isLowerWordChar c && singleBlanks false rest
  end.

(** [isNormalized], allowing one leading blank. *)
Definition wordsAfterOptionalBlank (s : string) : bool :=
  match s with
  | EmptyString => true
  | String c rest =>
      if isBlank c then wordsSeparatedByBlanks rest
      else wordsSeparatedByBlanks s
  end.

Fixpoint allSpaces (s : string) : bool :=
  match s with
  | EmptyString => true
  | String c rest => isSpaceChar c && allSpaces rest
  end.

End NormalForm.

(** The category names of the catalog. *)
Definition categoryNames : list string :=
  ["nudity"; "sexual"; "pornography"; "violence"; "gore"]%string.

(** Confidence as a function of the number of matches. *)
Definition confidenceOfMatches (n : nat) : float :=
  match n with
  | 0 => 0
  | 1 => 0.3
  | 2 => 0.6
  | 3 => 0.8999999999999999
  | _ => 1
  end%float.

(** A recorded coordinate lies inside the image. *)
Definition insideImage (img : RawImage) (p : Point) : Prop :=
  (x p < width img)%nat /\ (y p < height img)%nat.

(** A URL without a comma. *)
Fixpoint commaFree (s : string) : bool :=
  match s with
  | EmptyString => true
  | String c rest => negb (Ascii.eqb c ",") && commaFree rest
  end.

(** The bytes of an RGB image whose pixels are gray: [vs] gives the gray
    level of each pixel. *)
Definition grayscaleData (vs : list Z) : list Z :=
  flat_map (fun v => [v; v; v]) vs.

Definition grayscaleImage (vs : list Z) (w h : nat) : RawImage :=
  {| data := grayscaleData vs; width := w; height := h; channels := 3 |}.


(** The image cache has an entry for the URL. *)
Definition cachedUrl (w : World) (u : string) : Prop :=
  is_Some (imageCache w !! imageCacheKey u).

(** Every entry of the image cache holds what analysing its URL gives. *)
Definition imageCacheFresh
    (skinAnalysisOf : string -> Settled ImageAnalysisResult.t)
    (textAnalysisOf : string -> Settled TextAnalysisResult.t)
    (w : World) : Prop :=
  forall u entry,
    imageCache w !! imageCacheKey u = Some entry ->
    entryData entry = fst (analyzeUncached skinAnalysisOf textAnalysisOf u).

(** A started analysis that was answered from the cache holds the
    analysis of its URL. *)
Definition startedFresh
    (skinAnalysisOf : string -> Settled ImageAnalysisResult.t)
    (textAnalysisOf : string -> Settled TextAnalysisResult.t)
    (s : string * option ImageAnalysisDetail.t) : Prop :=
  forall d, snd s = Some d ->
    d = fst (analyzeUncached skinAnalysisOf textAnalysisOf (fst s)).

(** ** Sample inputs *)

(** A buffer of 801 pixels of colour (200, 60, 30), three channels. *)
Definition skinStripe : RawImage :=
  {| data := mjoin (replicate 801 [200; 60; 30]%Z);
     width := 89; height := 9; channels := 3 |}.

(** A 90 x 90 RGB image: 6888 black pixels followed by 1212 pixels of
    colour (200, 60, 30). *)
Definition image90 : RawImage :=
  {| data := replicate (6888 * 3) 0%Z ++
             mjoin (replicate 1212 [200; 60; 30]%Z);
     width := 90; height := 90; channels := 3 |}.

(** A decoded buffer without any pixel. *)
Definition noPixels : RawImage :=
  {| data := []; width := 1; height := 0; channels := 3 |}.

(** Two pixels, the first of colour (200, 60, 30). *)
Definition twoPixels : RawImage :=
  {| data := [200; 60; 30; 0; 0; 0]%Z;
     width := 2; height := 1; channels := 3 |}.

(** Stub collaborators: a clock that stands still, a mild and a strong
    skin verdict, and the text analysis of an explicit caption. *)
Definition frozenClock : nat -> Z := fun _ => 1700000000000%Z.

Definition mildSkin : ImageAnalysisResult.t :=
  {| ImageAnalysisResult.isExplicit := false;
     ImageAnalysisResult.skinPercentage := 10%float;
     ImageAnalysisResult.confidence := 0.3%float |}.

Definition strongSkin : ImageAnalysisResult.t :=
  {| ImageAnalysisResult.isExplicit := true;
     ImageAnalysisResult.skinPercentage := 50%float;
     ImageAnalysisResult.confidence := 1%float |}.

Definition explicitCaption : TextAnalysisResult.t :=
  analyzeImageText (Recognized (Some "porn xxx"%string)).

(** A world whose only entry, for the URL "a", expired long ago. *)
Definition staleWorld : World :=
  {| imageCache :=
       {[ imageCacheKey "a" :=
            {| entryData :=
                 fst (analyzeUncached (fun _ => Resolved strongSkin)
                        (fun _ => Rejected) "a");
               expiry := 0 |} ]};
     batchCache := ∅;
     ticks := 0 |}.

(** The detail of an image whose OCR text is the single word "nude". *)
Definition oneWordDetail : ImageAnalysisDetail.t :=
  fst (analyzeUncached (fun _ => Resolved mildSkin)
         (fun _ => Resolved (analyzeImageText (Recognized (Some "nude"%string))))
         "a").

(** * Properties *)

(** ** The per-pixel test *)

Section SkinPixelFacts.

Local Open Scope Z_scope.

Lemma rgbClassifier_as_rule r g b :
  (r >? 95) && ((g >? 40) && (g <? 100)) && (b >? 20) &&
  (Z.max r (Z.max g b) - Z.min r (Z.min g b) >? 15) &&
  (Z.abs (r - g) >? 15) && (r >? g) && (r >? b) = rgbRule r g b.
Proof.
  unfold rgbRule. rewrite !Z.gtb_ltb, !andb_assoc. reflexivity.
Qed.

Lemma rgbRule_sum_pos r g b : rgbRule r g b = true -> 155 < r + g + b.
Proof.
  unfold rgbRule. rewrite !andb_true_iff, !Z.ltb_lt. lia.
Qed.

(** The function is the disjunction of the three rules wherever the early
    [return false] is not taken. *)
Lemma isSkinPixel_nonzero_sum r g b :
  r + g + b <> 0 -> Z.max r (Z.max g b) <> 0 ->
  isSkinPixel r g b = rgbRule r g b || normalizedRgbRule r g b || hsvRule r g b.
Proof.
  intros Hsum Hmx.
  unfold isSkinPixel, normalizedRgbRule, hsvRule, hue, saturation.
  rewrite rgbClassifier_as_rule.
  apply Z.eqb_neq in Hsum. apply Z.eqb_neq in Hmx. rewrite Hsum, Hmx.
  destruct (Z.eqb_spec (Z.max r (Z.max g b) - Z.min r (Z.min g b)) 0) as [E|E];
    destruct (Z.eqb_spec (Z.max r (Z.max g b)) (Z.min r (Z.min g b))) as [E'|E'];
    try lia; reflexivity.
Qed.

Lemma rgbRule_isSkinPixel r g b : rgbRule r g b = true -> isSkinPixel r g b = true.
Proof.
  intros H. pose proof (rgbRule_sum_pos _ _ _ H) as Hs.
  unfold isSkinPixel. rewrite rgbClassifier_as_rule, H.
  destruct (Z.eqb_spec (r + g + b) 0); [lia | reflexivity].
Qed.

(** C3. For every pixel of bytes [(r, g, b)], [isSkinPixel] answers true
    exactly when at least one of the three rules fires: the RGB rule, the
    normalized-RGB rule (skipped when r+g+b = 0) or the HSV rule (with
    h = 0 when max = min and s = 0 when the sum is 0); it is their plain
    disjunction. *)
Theorem isSkinPixel_any_of_three_rules (r g b : Z) :
  isByte r -> isByte g -> isByte b ->
  isSkinPixel r g b = rgbRule r g b || normalizedRgbRule r g b || hsvRule r g b /\
  (isSkinPixel r g b = true <->
   rgbRule r g b = true \/ normalizedRgbRule r g b = true \/ hsvRule r g b = true).
Proof.
  unfold isByte. intros Hr Hg Hb.
  assert (E : isSkinPixel r g b =
              rgbRule r g b || normalizedRgbRule r g b || hsvRule r g b).
  { destruct (Z.eq_dec (r + g + b) 0) as [Hz|Hnz].
    - assert (r = 0) by lia. assert (g = 0) by lia. assert (b = 0) by lia.
      subst. vm_compute. reflexivity.
    - apply isSkinPixel_nonzero_sum; lia. }
  split; [exact E|].
  rewrite E, !orb_true_iff. tauto.
Qed.

Lemma isSkinPixel_any_of_three_rules_witness :
  isSkinPixel 200 60 30 = true /\ rgbRule 200 60 30 = true.
Proof.
  assert (B : forall v, (0 <=? v) && (v <=? 255) = true -> isByte v).
  { intros v H. apply andb_true_iff in H as [H1 H2].
    apply Z.leb_le in H1. apply Z.leb_le in H2. split; assumption. }
  pose proof (isSkinPixel_any_of_three_rules 200 60 30
                (B 200 eq_refl) (B 60 eq_refl) (B 30 eq_refl)) as [E _].
  split; [rewrite E|]; vm_compute; reflexivity.
Defined.

End SkinPixelFacts.

(** ** The sampling scan *)

Section ScanFacts.

Import JS.

Lemma scanLoop_unfold fuel dat w c i st :
  scanLoop (S fuel) dat w c i st =
  if (i <? length dat)%nat then
    let st' :=
      if isSkinSample (dat !! i) (dat !! (i + 1)%nat) (dat !! (i + 2)%nat) then
        {| skinPixels := S (skinPixels st);
           totalPixels := S (totalPixels st);
           skinRegions :=
             skinRegions st ++
             [ {| x := ((i / c) mod w)%nat; y := ((i / c) / w)%nat |} ] |}
      else
        {| skinPixels := skinPixels st;
           totalPixels := S (totalPixels st);
           skinRegions := skinRegions st |} in
    if earlyExit (skinPixels st') (totalPixels st') then Some st'
    else scanLoop fuel dat w c (i + c * 8)%nat st'
  else Some st.
Proof. reflexivity. Qed.

Lemma sampleOffset_succ img k :
  (sampleOffset img k + channels img * 8)%nat = sampleOffset img (S k).
Proof. unfold sampleOffset. lia. Qed.

Lemma sampleOffset_mono img j k :
  (j <= k)%nat -> (sampleOffset img j <= sampleOffset img k)%nat.
Proof. unfold sampleOffset. intros. apply Nat.mul_le_mono_r. assumption. Qed.

Lemma earlyExit_needs_101 skin total :
  (total <= 100)%nat -> earlyExit skin total = false.
Proof.
  intros H. unfold earlyExit.
  destruct (Nat.ltb_spec 100 total); [lia | reflexivity].
Qed.


Lemma scanLoop_invariant img :
  (1 <= channels img)%nat ->
  forall fuel k st,
    totalPixels st = k ->
    skinPixels st = skinAmong img k ->
    length (skinRegions st) = skinPixels st ->
    (forall j, (1 <= j <= k)%nat -> earlyExit (skinAmong img j) j = false) ->
    (forall j, (j < k)%nat -> (sampleOffset img j < length (data img))%nat) ->
    (length (data img) - sampleOffset img k < fuel)%nat ->
    exists st',
      scanLoop fuel (data img) (width img) (channels img)
        (sampleOffset img k) st = Some st' /\
      scanPost img st'.
Proof.
  intros Hc. induction fuel as [|fuel IH]; intros k st Ht Hs Hr Hexit Hin Hfuel.
  - lia.
  - rewrite scanLoop_unfold.
    destruct (Nat.ltb_spec (sampleOffset img k) (length (data img))) as [Hlt|Hge].
    + set (st1 := if isSkinSample _ _ _ then _ else _).
      assert (Ht1 : totalPixels st1 = S k).
      { subst st1. destruct (isSkinSample _ _ _); simpl; lia. }
      assert (Hs1 : skinPixels st1 = skinAmong img (S k)).
      { subst st1. simpl skinAmong. unfold sampleIsSkin.
        destruct (isSkinSample _ _ _); simpl; lia. }
      assert (Hr1 : length (skinRegions st1) = skinPixels st1).
      { subst st1. destruct (isSkinSample _ _ _); simpl; [|assumption].
        rewrite length_app. simpl. lia. }
      assert (Hin1 : forall j, (j < S k)%nat ->
                               (sampleOffset img j < length (data img))%nat).
      { intros j Hj. destruct (Nat.eq_dec j k) as [->|]; [assumption|].
        apply Hin. lia. }
      cbv zeta. destruct (earlyExit (skinPixels st1) (totalPixels st1)) eqn:Hx.
      * exists st1. split; [reflexivity|]. unfold scanPost.
        rewrite Ht1 in *. repeat split; try assumption.
        -- intros j Hj. apply Hexit. lia.
        -- intros _. exact Hx.
      * rewrite sampleOffset_succ.
        apply (IH (S k) st1); try assumption.
        -- intros j Hj. destruct (Nat.eq_dec j (S k)) as [->|].
           ++ rewrite Ht1, Hs1 in Hx. exact Hx.
           ++ apply Hexit. lia.
        -- rewrite <- sampleOffset_succ. lia.
    + exists st. split; [reflexivity|]. unfold scanPost.
      rewrite Ht. repeat split; try assumption.
      * intros j Hj. apply Hexit. lia.
      * intros Hlt. lia.
Qed.

(** With at least one channel the scan ends within the bound of [scan],
    and it ends in a state described by [scanPost]. *)
Lemma scan_terminates img :
  (1 <= channels img)%nat -> exists st, scan img = Some st /\ scanPost img st.
Proof.
  intros Hc. unfold scan.
  change 0%nat with (sampleOffset img 0) at 1.
  apply scanLoop_invariant; try assumption; try reflexivity.
  - intros j Hj. lia.
  - intros j Hj. lia.
  - unfold sampleOffset. lia.
Qed.

Lemma sampleMeetsRgbRule_isSkin img k :
  sampleMeetsRgbRule img k = true -> sampleIsSkin img k = true.
Proof.
  unfold sampleMeetsRgbRule, sampleIsSkin, isSkinSample.
  destruct (data img !! sampleOffset img k); [|discriminate].
  destruct (data img !! (sampleOffset img k + 1)%nat); [|discriminate].
  destruct (data img !! (sampleOffset img k + 2)%nat); [|discriminate].
  apply rgbRule_isSkinPixel.
Qed.

Lemma everySample_spec img :
  (1 <= channels img)%nat ->
  everySampleMeetsRgbRule img = true ->
  forall k, (sampleOffset img k < length (data img))%nat ->
            sampleMeetsRgbRule img k = true.
Proof.
  intros Hc H k Hk. unfold everySampleMeetsRgbRule in H.
  rewrite forallb_forall in H.
  assert (Hin : In k (seq 0 (S (length (data img) / (channels img * 8))))).
  { apply in_seq. unfold sampleOffset in Hk.
    assert (k <= length (data img) / (channels img * 8))%nat; [|lia].
    apply Nat.div_le_lower_bound; lia. }
  specialize (H k Hin). cbv beta in H.
  destruct (Nat.ltb_spec (sampleOffset img k) (length (data img))); [assumption|lia].
Qed.

Lemma skinAmong_all img k :
  (forall j, (j < k)%nat -> sampleIsSkin img j = true) -> skinAmong img k = k.
Proof.
  induction k as [|k IH]; intros H; [reflexivity|].
  simpl. rewrite IH by (intros; apply H; lia).
  rewrite H by lia. lia.
Qed.

(** C7. The scan visits the samples at offsets [k * channels * 8]
    (every 8th pixel), counts each of them in [totalPixels], and is left
    at the first count [t] with [t > 100] and [skinPixels / t > 0.35], or
    when the buffer is exhausted.  In particular, on a buffer with at
    least 3 channels whose samples all satisfy the RGB rule and which
    holds more than 100 samples, it halts with [totalPixels = 101], which
    is at least 101 and at most [length / 8]. *)
Theorem scan_stride_and_early_exit (img : RawImage) :
  (1 <= channels img)%nat ->
  exists st,
    scan img = Some st /\
    skinPixels st = skinAmong img (totalPixels st) /\
    length (skinRegions st) = skinPixels st /\
    (forall j, (j < totalPixels st)%nat ->
               (j * (channels img * 8) < length (data img))%nat) /\
    (forall j, (1 <= j < totalPixels st)%nat ->
               earlyExit (skinAmong img j) j = false) /\
    ((totalPixels st * (channels img * 8) < length (data img))%nat ->
     (100 < totalPixels st)%nat /\
     gt (Number (Z.of_nat (skinPixels st)) / Number (Z.of_nat (totalPixels st)))
        0.35%float = true) /\
    ((3 <= channels img)%nat ->
     everySampleMeetsRgbRule img = true ->
     (100 * (channels img * 8) < length (data img))%nat ->
     totalPixels st = 101%nat /\
     (101 <= totalPixels st)%nat /\
     (8 * totalPixels st <= length (data img))%nat).
Proof.
  intros Hc. destruct (scan_terminates img Hc) as (st & Hscan & Hpost).
  destruct Hpost as (Hs & Hr & Hno & Hin & Hexit).
  exists st. split; [assumption|].
  split; [assumption|]. split; [assumption|].
  split; [exact Hin|]. split; [exact Hno|]. split.
  - intros Hlt. specialize (Hexit Hlt). unfold earlyExit in Hexit.
    apply andb_true_iff in Hexit as [H1 H2].
    apply Nat.ltb_lt in H1. split; assumption.
  - intros Hc3 Hall Hmany.
    pose proof (everySample_spec img Hc Hall) as Hrule.
    assert (Hskin : forall j, (j <= 100)%nat -> sampleIsSkin img j = true).
    { intros j Hj. apply sampleMeetsRgbRule_isSkin, Hrule.
      pose proof (sampleOffset_mono img j 100 Hj). unfold sampleOffset in *. lia. }
    assert (Hge : (101 <= totalPixels st)%nat).
    { destruct (Nat.le_gt_cases 101 (totalPixels st)) as [|Hlt]; [assumption|].
      assert (Hoff : (sampleOffset img (totalPixels st) < length (data img))%nat).
      { pose proof (sampleOffset_mono img (totalPixels st) 100 ltac:(lia)).
        unfold sampleOffset in *. lia. }
      specialize (Hexit Hoff).
      rewrite earlyExit_needs_101 in Hexit by lia. discriminate. }
    assert (Hle : (totalPixels st <= 101)%nat).
    { destruct (Nat.le_gt_cases (totalPixels st) 101) as [|Hgt]; [assumption|].
      specialize (Hno 101%nat ltac:(lia)).
      rewrite (skinAmong_all img 101) in Hno by (intros; apply Hskin; lia).
      vm_compute in Hno. discriminate. }
    split; [lia|]. split; [assumption|]. lia.
Qed.

End ScanFacts.

Lemma scan_stride_and_early_exit_witness :
  exists st, scan skinStripe = Some st /\ totalPixels st = 101%nat /\
             (8 * totalPixels st <= length (data skinStripe))%nat.
Proof.
  assert (Hc : (1 <= channels skinStripe)%nat) by (vm_compute; lia).
  destruct (scan_stride_and_early_exit skinStripe Hc)
    as (st & Hscan & _ & _ & _ & _ & _ & Hall).
  exists st. split; [exact Hscan|].
  assert (H3 : (3 <= channels skinStripe)%nat) by (vm_compute; lia).
  assert (Hmany : (100 * (channels skinStripe * 8) < length (data skinStripe))%nat).
  { apply Nat.ltb_lt. vm_compute. reflexivity. }
  destruct (Hall H3 ltac:(vm_compute; reflexivity) Hmany) as (Ht & _ & Hlen).
  split; assumption.
Defined.

(** ** The verdict *)

Section VerdictFacts.

Import JS.
Local Open Scope float_scope.

(** Two numbers that [=?] tells apart are different, unless the first is
    NaN. *)
Lemma float_neq (a b : float) : (a =? a) = true -> (a =? b) = false -> a <> b.
Proof. intros Ha H E. subst b. congruence. Qed.

(** C2 (as amended). For every completed scan, the classifier applies its
    thresholds to the percentage before rounding, [p = skinPixels /
    totalPixels * 100] (0 for an empty scan): hasLargeSkinRegions is
    (recorded coordinates > 30) and p > 15; isExplicit is p > 35 or
    (p > 25 and hasLargeSkinRegions); confidence is the tier of p, plus
    0.2 with large regions, capped at 1 and rounded to 2 decimals, hence
    one of 0.3, 0.5, 0.7, 0.9, 1; the returned skinPercentage is p rounded
    to 2 decimals. *)
Theorem verdict_uses_unrounded_percentage (img : RawImage) (st : ScanState) :
  scan img = Some st ->
  exists r,
    analyzeImageForExplicitContent (Some img) = Some r /\
    largeRegions st =
      ((30 <? length (skinRegions st))%nat && gt (rawPercentage st) 15) /\
    ImageAnalysisResult.isExplicit r =
      (gt (rawPercentage st) 35 || (gt (rawPercentage st) 25 && largeRegions st)) /\
    ImageAnalysisResult.confidence r =
      round2 (Math_min
                (if largeRegions st
                 then confidenceTier (rawPercentage st) + 0.2
                 else confidenceTier (rawPercentage st)) 1) /\
    ImageAnalysisResult.skinPercentage r = round2 (rawPercentage st) /\
    (ImageAnalysisResult.confidence r = 0.3 \/
     ImageAnalysisResult.confidence r = 0.5 \/
     ImageAnalysisResult.confidence r = 0.7 \/
     ImageAnalysisResult.confidence r = 0.9 \/
     ImageAnalysisResult.confidence r = 1).
Proof.
  intros Hscan. unfold analyzeImageForExplicitContent. rewrite Hscan.
  eexists. split; [reflexivity|].
  split; [reflexivity|]. split; [reflexivity|].
  split; [reflexivity|]. split; [reflexivity|].
  unfold verdict. cbn [ImageAnalysisResult.confidence].
  fold (rawPercentage st). fold (largeRegions st).
  destruct (largeRegions st);
    destruct (gt (rawPercentage st) 40);
    [| destruct (gt (rawPercentage st) 30);
       [| destruct (gt (rawPercentage st) 20)] | |
       destruct (gt (rawPercentage st) 30);
       [| destruct (gt (rawPercentage st) 20)]];
    vm_compute; tauto.
Qed.

Lemma verdict_uses_unrounded_percentage_witness :
  exists r,
    analyzeImageForExplicitContent (Some twoPixels) = Some r /\
    ImageAnalysisResult.isExplicit r = true /\
    ImageAnalysisResult.confidence r = 0.9.
Proof.
  destruct (verdict_uses_unrounded_percentage twoPixels
              {| skinPixels := 1; totalPixels := 1;
                 skinRegions := [ {| x := 0; y := 0 |} ] |}
              ltac:(vm_compute; reflexivity))
    as (r & Hr & _ & He & Hc & _).
  exists r. split; [exact Hr|]. split.
  - rewrite He. vm_compute. reflexivity.
  - rewrite Hc. vm_compute. reflexivity.
Defined.

(** The scan of [image90], run once: the counters it ends with and the
    verdict drawn from them. *)
Lemma image90_scan :
  option_map
    (fun st => (skinPixels st, totalPixels st, length (skinRegions st), verdict st))
    (scan image90) =
  Some (152%nat, 1013%nat, 152%nat,
        {| ImageAnalysisResult.isExplicit := false;
           ImageAnalysisResult.skinPercentage := 15;
           ImageAnalysisResult.confidence := 0.5 |}).
Proof. vm_compute. reflexivity. Qed.

(** C2 (as stated) fails: on a 90 x 90 RGB image with 152 skin samples
    out of 1013 the ratio is 15.0049...%, which rounds to 15.  The program
    finds large regions (15.0049 > 15) and answers confidence 0.5; with the
    thresholds on the rounded percentage the answer would be 0.3.  And a
    scan that sampled nothing is answered with skinPercentage 0, where
    0/0 x 100 is NaN. *)
Lemma claimed_verdict_differs_on_image90 :
  (analyzeImageForExplicitContent (Some noPixels) =
     Some {| ImageAnalysisResult.isExplicit := false;
             ImageAnalysisResult.skinPercentage := 0;
             ImageAnalysisResult.confidence := 0.3 |} /\
   is_nan (ImageAnalysisResult.skinPercentage (claimedVerdict 0 0 0)) = true) /\
  exists st,
    scan image90 = Some st /\
    skinPixels st = 152%nat /\ totalPixels st = 1013%nat /\
    length (skinRegions st) = 152%nat /\
    analyzeImageForExplicitContent (Some image90) =
      Some {| ImageAnalysisResult.isExplicit := false;
              ImageAnalysisResult.skinPercentage := 15;
              ImageAnalysisResult.confidence := 0.5 |} /\
    claimedVerdict (skinPixels st) (totalPixels st) (length (skinRegions st)) =
      {| ImageAnalysisResult.isExplicit := false;
         ImageAnalysisResult.skinPercentage := 15;
         ImageAnalysisResult.confidence := 0.3 |} /\
    analyzeImageForExplicitContent (Some image90) <>
      Some (claimedVerdict (skinPixels st) (totalPixels st)
              (length (skinRegions st))).
Proof.
  split; [vm_compute; split; reflexivity|].
  pose proof image90_scan as H. unfold analyzeImageForExplicitContent.
  destruct (scan image90) as [st|]; [|discriminate].
  cbn [option_map] in H.
  assert (Hs : skinPixels st = 152%nat) by congruence.
  assert (Ht : totalPixels st = 1013%nat) by congruence.
  assert (Hr : length (skinRegions st) = 152%nat) by congruence.
  assert (Hv : verdict st =
      {| ImageAnalysisResult.isExplicit := false;
         ImageAnalysisResult.skinPercentage := 15;
         ImageAnalysisResult.confidence := 0.5 |}) by congruence.
  clear H.
  assert (Hclaim : claimedVerdict 152 1013 152 =
      {| ImageAnalysisResult.isExplicit := false;
         ImageAnalysisResult.skinPercentage := 15;
         ImageAnalysisResult.confidence := 0.3 |})
    by (vm_compute; reflexivity).
  exists st. rewrite Hs, Ht, Hr, Hv, Hclaim.
  repeat split; try reflexivity.
  intros E.
  apply (f_equal (fun o => match o with
                           | Some r => ImageAnalysisResult.confidence r
                           | None => 0
                           end)) in E.
  cbn in E. revert E. apply float_neq; vm_compute; reflexivity.
Qed.

End VerdictFacts.

(** ** The keyword classifier *)

Section TextFacts.

Import JS.

Lemma filter_pairs_of_category (hit : string -> bool) (c : string) (kws : list string) :
  List.filter (fun p : string * string => hit (snd p)) (map (pair c) kws) =
  map (pair c) (List.filter hit kws).
Proof.
  induction kws as [|k kws IH]; [reflexivity|].
  simpl. destruct (hit k); simpl; rewrite IH; reflexivity.
Qed.

Lemma matchingPairs_cons c kws catalog text :
  matchingPairs ((c, kws) :: catalog) text =
  map (pair c) (List.filter (keywordHit text) kws) ++ matchingPairs catalog text.
Proof.
  unfold matchingPairs, keywordPairs. simpl.
  rewrite List.filter_app, filter_pairs_of_category. reflexivity.
Qed.

(** The inner loop adds one match, one detected word and the category for
    each keyword that hits. *)
Lemma keywordStep_fold text c kws acc :
  let hits := List.filter (keywordHit text) kws in
  let acc' := fold_left (keywordStep text c) kws acc in
  Matches.totalMatches acc' = (Matches.totalMatches acc + length hits)%nat /\
  Matches.detectedWords acc' = Matches.detectedWords acc ++ hits /\
  Matches.categories acc' =
    fold_left (fun s x => setAdd x s) (map (fun _ => c) hits) (Matches.categories acc).
Proof.
  revert acc. induction kws as [|k kws IH]; intros acc.
  - simpl. rewrite Nat.add_0_r, app_nil_r. auto.
  - simpl. unfold keywordStep at 2 4 6.
    destruct (keywordHit text k); simpl.
    + destruct (IH {| Matches.detectedWords := Matches.detectedWords acc ++ [k];
                      Matches.categories := setAdd c (Matches.categories acc);
                      Matches.totalMatches := S (Matches.totalMatches acc) |})
        as (H1 & H2 & H3).
      simpl in *. rewrite H1, H2, H3, <- app_assoc. simpl.
      repeat split; try reflexivity. lia.
    + apply IH.
Qed.

(** The two nested loops count the matching (category, keyword) pairs. *)
Lemma scanKeywords_fold text catalog acc :
  let hits := matchingPairs catalog text in
  let acc' := fold_left (categoryStep text) catalog acc in
  Matches.totalMatches acc' = (Matches.totalMatches acc + length hits)%nat /\
  Matches.detectedWords acc' = Matches.detectedWords acc ++ map snd hits /\
  Matches.categories acc' =
    fold_left (fun s x => setAdd x s) (map fst hits) (Matches.categories acc).
Proof.
  revert acc. induction catalog as [|[c kws] catalog IH]; intros acc.
  - simpl. rewrite Nat.add_0_r, app_nil_r. auto.
  - cbn zeta. rewrite matchingPairs_cons. simpl fold_left.
    destruct (IH (categoryStep text acc (c, kws))) as (H1 & H2 & H3).
    cbn zeta in H1, H2, H3. rewrite H1, H2, H3. clear H1 H2 H3.
    unfold categoryStep. cbn [fst snd].
    destruct (keywordStep_fold text c kws acc) as (K1 & K2 & K3).
    cbn zeta in K1, K2, K3. rewrite K1, K2, K3. clear K1 K2 K3.
    rewrite length_app, !map_app, !length_map, fold_left_app, !map_map.
    cbn [fst snd]. rewrite map_id, <- app_assoc.
    repeat split; try reflexivity. lia.
Qed.

Lemma scanKeywords_spec text :
  let acc := scanKeywords EXPLICIT_KEYWORDS text in
  Matches.totalMatches acc = totalMatchCount text /\
  Matches.detectedWords acc = map snd (matchingPairs EXPLICIT_KEYWORDS text) /\
  Matches.categories acc = dedupe (map fst (matchingPairs EXPLICIT_KEYWORDS text)).
Proof.
  destruct (scanKeywords_fold text EXPLICIT_KEYWORDS Matches.empty) as (H1 & H2 & H3).
  cbn zeta. unfold scanKeywords, totalMatchCount, dedupe.
  rewrite H1, H2, H3. repeat split; reflexivity.
Qed.

(** C4. For every OCR text, the classifier's confidence is
    [min(totalMatchCount * 0.3, 1.0)], where totalMatchCount is the number
    of (category, keyword) pairs whose keyword hits the normalized text by
    the word-boundary expression or by substring containment; the detected
    words are the distinct keywords of those pairs, and hasExplicitText is
    (at least one detected word) and (confidence > 0.3).  A keyword listed
    in two categories counts twice: the text [porn] has one detected word
    and two matches, hence confidence 0.6. *)
Theorem confidence_counts_every_matching_pair (text : string) :
  let r := analyzeImageText (Recognized (Some text)) in
  let normalizedText := normalizeText (trim text) in
  let hits := matchingPairs EXPLICIT_KEYWORDS normalizedText in
  totalMatchCount normalizedText = length hits /\
  TextAnalysisResult.confidence r =
    Math_min (Number (Z.of_nat (totalMatchCount normalizedText)) * 0.3)%float 1%float /\
  TextAnalysisResult.detectedWords r = dedupe (map snd hits) /\
  TextAnalysisResult.categories r = dedupe (map fst hits) /\
  TextAnalysisResult.hasExplicitText r =
    ((0 <? length (TextAnalysisResult.detectedWords r))%nat &&
     gt (TextAnalysisResult.confidence r) 0.3%float) /\
  (totalMatchCount (normalizeText (trim "porn")) = 2%nat /\
   TextAnalysisResult.detectedWords (analyzeImageText (Recognized (Some "porn")))
     = ["porn"%string] /\
   TextAnalysisResult.confidence (analyzeImageText (Recognized (Some "porn")))
     = 0.6%float).
Proof.
  cbn zeta. split; [reflexivity|].
  assert (Hex : totalMatchCount (normalizeText (trim "porn")) = 2%nat /\
     TextAnalysisResult.detectedWords (analyzeImageText (Recognized (Some "porn")))
       = ["porn"%string] /\
     TextAnalysisResult.confidence (analyzeImageText (Recognized (Some "porn")))
       = 0.6%float)
    by (vm_compute; repeat split; reflexivity).
  unfold analyzeImageText.
  destruct (String.eqb_spec (trim text) "") as [E|E].
  - rewrite E. repeat split; try (vm_compute; reflexivity); apply Hex.
  - cbn [TextAnalysisResult.confidence TextAnalysisResult.detectedWords
         TextAnalysisResult.categories TextAnalysisResult.hasExplicitText].
    unfold analyzeTextContent.
    cbn [TextContent.confidence TextContent.detectedWords TextContent.categories].
    destruct (scanKeywords_spec (normalizeText (trim text))) as (H1 & H2 & H3).
    cbn zeta in H1, H2, H3. rewrite H1, H2, H3.
    repeat split; try reflexivity; apply Hex.
Qed.

(** C5 (as amended). The text "this is a nude and sexual image" yields
    categories nudity and sexual, the detected words nude, sex and sexual,
    three matches ([sex] is contained in [sexual]), confidence
    [min(3 * 0.3, 1.0) = 0.8999999999999999] and hasExplicitText true. *)
Theorem nude_and_sexual_text_has_three_matches :
  analyzeImageText (Recognized (Some "this is a nude and sexual image")) =
    {| TextAnalysisResult.hasExplicitText := true;
       TextAnalysisResult.confidence := 0.8999999999999999%float;
       TextAnalysisResult.detectedWords := ["nude"; "sex"; "sexual"]%string;
       TextAnalysisResult.categories := ["nudity"; "sexual"]%string;
       TextAnalysisResult.extractedText := "this is a nude and sexual image" |} /\
  matchingPairs EXPLICIT_KEYWORDS (normalizeText "this is a nude and sexual image") =
    [("nudity", "nude"); ("sexual", "sex"); ("sexual", "sexual")]%string /\
  Math_min (3 * 0.3)%float 1%float = 0.8999999999999999%float /\
  regexTest "sex" "this is a nude and sexual image" = false /\
  includes "this is a nude and sexual image" "sex" = true.
Proof. vm_compute. repeat split; reflexivity. Qed.

(** C5 (as stated) fails: the confidence is not [min(2 * 0.3, 1.0) = 0.6]. *)
Lemma nude_and_sexual_text_confidence_is_not_0_6 :
  Math_min (2 * 0.3)%float 1%float = 0.6%float /\
  TextAnalysisResult.confidence
    (analyzeImageText (Recognized (Some "this is a nude and sexual image")))
  <> 0.6%float.
Proof.
  split; [vm_compute; reflexivity|].
  apply float_neq; vm_compute; reflexivity.
Qed.

End TextFacts.

(** ** The single-image orchestrator *)

Section SingleImageFacts.

Import JS.

Variable clock : nat -> Z.
Variable skinAnalysisOf : string -> Settled ImageAnalysisResult.t.
Variable textAnalysisOf : string -> Settled TextAnalysisResult.t.

Lemma startAnalysis_spec url w :
  startAnalysis clock url w =
  match imageCache w !! imageCacheKey url with
  | None => (None, w)
  | Some entry =>
      if (clock (ticks w) >? expiry entry)%Z
      then (None, {| imageCache := delete (imageCacheKey url) (imageCache w);
                     batchCache := batchCache w;
                     ticks := S (ticks w) |})
      else (Some (entryData entry),
            {| imageCache := imageCache w;
               batchCache := batchCache w;
               ticks := S (ticks w) |})
  end.
Proof.
  unfold startAnalysis, getImageCache, safeGetCache.
  destruct (imageCache w !! imageCacheKey url) as [entry|].
  - destruct (clock (ticks w) >? expiry entry)%Z; reflexivity.
  - destruct w; reflexivity.
Qed.

Lemma setImageCache_spec key value ttl w :
  setImageCache clock key value ttl w =
  {| imageCache :=
       <[key := {| entryData := value;
                   expiry := (clock (ticks w) + ttl * 1000)%Z |}]> (imageCache w);
     batchCache := batchCache w;
     ticks := S (ticks w) |}.
Proof. reflexivity. Qed.

Lemma finishAnalysis_spec url w :
  finishAnalysis clock skinAnalysisOf textAnalysisOf url w =
  (fst (analyzeUncached skinAnalysisOf textAnalysisOf url),
   setImageCache clock (imageCacheKey url)
     (fst (analyzeUncached skinAnalysisOf textAnalysisOf url))
     (snd (analyzeUncached skinAnalysisOf textAnalysisOf url)) w).
Proof.
  unfold finishAnalysis.
  destruct (analyzeUncached skinAnalysisOf textAnalysisOf url). reflexivity.
Qed.

Lemma analyzeImageFast_miss url w :
  fst (startAnalysis clock url w) = None ->
  analyzeImageFast clock skinAnalysisOf textAnalysisOf url w =
  finishAnalysis clock skinAnalysisOf textAnalysisOf url
    (snd (startAnalysis clock url w)).
Proof.
  unfold analyzeImageFast.
  destruct (startAnalysis clock url w) as [cached w1]. simpl.
  intros ->. reflexivity.
Qed.

Lemma analyzeImageFast_hit url w cached :
  fst (startAnalysis clock url w) = Some cached ->
  analyzeImageFast clock skinAnalysisOf textAnalysisOf url w =
  (cached, snd (startAnalysis clock url w)).
Proof.
  unfold analyzeImageFast.
  destruct (startAnalysis clock url w) as [c w1]. simpl.
  intros ->. reflexivity.
Qed.

(** What a miss leaves in the cache, and what the next lookup of the same
    URL answers: the stored result until [ttl] seconds after the reading
    of [Date.now()] made by [safeSetCache], nothing later. *)
Lemma miss_caches_result url w :
  fst (startAnalysis clock url w) = None ->
  let w1 := snd (startAnalysis clock url w) in
  let run := analyzeImageFast clock skinAnalysisOf textAnalysisOf url w in
  let ttl := snd (analyzeUncached skinAnalysisOf textAnalysisOf url) in
  fst run = fst (analyzeUncached skinAnalysisOf textAnalysisOf url) /\
  imageCache (snd run) !! imageCacheKey url =
    Some {| entryData := fst run;
            expiry := (clock (ticks w1) + ttl * 1000)%Z |} /\
  fst (startAnalysis clock url (snd run)) =
    if (clock (ticks (snd run)) >? clock (ticks w1) + ttl * 1000)%Z
    then None else Some (fst run).
Proof.
  intros Hmiss. cbn zeta.
  rewrite (analyzeImageFast_miss url w Hmiss), finishAnalysis_spec.
  generalize (snd (startAnalysis clock url w)). intros w1.
  cbn [fst snd]. rewrite setImageCache_spec.
  split; [reflexivity|].
  rewrite startAnalysis_spec. cbn [imageCache ticks].
  rewrite lookup_insert_eq. cbn [expiry entryData].
  split; [reflexivity|].
  destruct (_ >? _)%Z; reflexivity.
Qed.

(** C1. On a cache miss where the skin classifier answers and the
    short-circuit does not fire, the result has confidence
    [max(skinConfidence, textConfidence * 0.8)] and isExplicit
    [skinIsExplicit or (textHasExplicit and textConfidence > 0.4)], the
    text values being those of the text analysis, or the empty/zero ones
    when it was rejected; the result is stored with an expiry 300 seconds
    after the time read by [safeSetCache] and is what a lookup answers
    until then. *)
Theorem analyzeImageFast_combines_and_caches_300s
    (url : string) (w : World) (skin : ImageAnalysisResult.t) :
  fst (startAnalysis clock url w) = None ->
  skinAnalysisOf url = Resolved skin ->
  ImageAnalysisResult.isExplicit skin &&
    gt (ImageAnalysisResult.confidence skin) 0.7%float = false ->
  let text :=
    match textAnalysisOf url with
    | Resolved t => t
    | Rejected => emptyTextAnalysis
    end in
  let w1 := snd (startAnalysis clock url w) in
  let run := analyzeImageFast clock skinAnalysisOf textAnalysisOf url w in
  ImageAnalysisDetail.confidence (fst run) =
    Math_max (ImageAnalysisResult.confidence skin)
             (TextAnalysisResult.confidence text * 0.8)%float /\
  ImageAnalysisDetail.isExplicit (fst run) =
    (ImageAnalysisResult.isExplicit skin ||
     (TextAnalysisResult.hasExplicitText text &&
      gt (TextAnalysisResult.confidence text) 0.4%float)) /\
  ImageAnalysisDetail.url (fst run) = url /\
  ImageAnalysisDetail.skinPercentage (fst run) =
    ImageAnalysisResult.skinPercentage skin /\
  ImageAnalysisDetail.textAnalysis (fst run) = Some text /\
  imageCache (snd run) !! imageCacheKey url =
    Some {| entryData := fst run;
            expiry := (clock (ticks w1) + 300 * 1000)%Z |} /\
  fst (startAnalysis clock url (snd run)) =
    if (clock (ticks (snd run)) >? clock (ticks w1) + 300 * 1000)%Z
    then None else Some (fst run).
Proof.
  intros Hmiss Hskin Hgate. cbn zeta.
  destruct (miss_caches_result url w Hmiss) as (Hres & Hcache & Hnext).
  cbn zeta in Hres, Hcache, Hnext.
  assert (Hu : analyzeUncached skinAnalysisOf textAnalysisOf url =
    ({| ImageAnalysisDetail.url := url;
        ImageAnalysisDetail.isExplicit :=
          ImageAnalysisResult.isExplicit skin ||
          (TextAnalysisResult.hasExplicitText
             match textAnalysisOf url with
             | Resolved t => t
             | Rejected => emptyTextAnalysis
             end &&
           gt (TextAnalysisResult.confidence
                 match textAnalysisOf url with
                 | Resolved t => t
                 | Rejected => emptyTextAnalysis
                 end) 0.4%float);
        ImageAnalysisDetail.skinPercentage :=
          ImageAnalysisResult.skinPercentage skin;
        ImageAnalysisDetail.confidence :=
          Math_max (ImageAnalysisResult.confidence skin)
            (TextAnalysisResult.confidence
               match textAnalysisOf url with
               | Resolved t => t
               | Rejected => emptyTextAnalysis
               end * 0.8)%float;
        ImageAnalysisDetail.textAnalysis :=
          Some match textAnalysisOf url with
               | Resolved t => t
               | Rejected => emptyTextAnalysis
               end |}, 300%Z)).
  { unfold analyzeUncached. rewrite Hskin, Hgate. reflexivity. }
  rewrite Hu in Hres, Hcache, Hnext. cbn [fst snd] in Hres, Hcache, Hnext.
  rewrite Hcache, Hnext, Hres. cbn.
  repeat split; reflexivity.
Qed.

(** C6. When the skin classifier answers explicit with confidence above
    0.7, [analyzeImageFast] does not depend on the OCR collaborator at
    all; on a cache miss its result carries the empty/zero text analysis,
    is explicit with the skin confidence, and is stored with an expiry 300
    seconds after the time read by [safeSetCache]. *)
Theorem short_circuit_skips_ocr
    (url : string) (w : World) (skin : ImageAnalysisResult.t) :
  skinAnalysisOf url = Resolved skin ->
  ImageAnalysisResult.isExplicit skin = true ->
  gt (ImageAnalysisResult.confidence skin) 0.7%float = true ->
  (forall otherTextAnalysisOf,
     analyzeImageFast clock skinAnalysisOf otherTextAnalysisOf url w =
     analyzeImageFast clock skinAnalysisOf textAnalysisOf url w) /\
  (fst (startAnalysis clock url w) = None ->
   let w1 := snd (startAnalysis clock url w) in
   let run := analyzeImageFast clock skinAnalysisOf textAnalysisOf url w in
   fst run =
     {| ImageAnalysisDetail.url := url;
        ImageAnalysisDetail.isExplicit := true;
        ImageAnalysisDetail.skinPercentage :=
          ImageAnalysisResult.skinPercentage skin;
        ImageAnalysisDetail.confidence := ImageAnalysisResult.confidence skin;
        ImageAnalysisDetail.textAnalysis := Some emptyTextAnalysis |} /\
   emptyTextAnalysis =
     {| TextAnalysisResult.hasExplicitText := false;
        TextAnalysisResult.confidence := 0%float;
        TextAnalysisResult.detectedWords := [];
        TextAnalysisResult.categories := [];
        TextAnalysisResult.extractedText := "" |} /\
   imageCache (snd run) !! imageCacheKey url =
     Some {| entryData := fst run;
             expiry := (clock (ticks w1) + 300 * 1000)%Z |} /\
   fst (startAnalysis clock url (snd run)) =
     if (clock (ticks (snd run)) >? clock (ticks w1) + 300 * 1000)%Z
     then None else Some (fst run)).
Proof.
  intros Hskin Hexp Hconf.
  assert (Hu : forall textOf,
    analyzeUncached skinAnalysisOf textOf url =
    ({| ImageAnalysisDetail.url := url;
        ImageAnalysisDetail.isExplicit := true;
        ImageAnalysisDetail.skinPercentage :=
          ImageAnalysisResult.skinPercentage skin;
        ImageAnalysisDetail.confidence := ImageAnalysisResult.confidence skin;
        ImageAnalysisDetail.textAnalysis := Some emptyTextAnalysis |}, 300%Z)).
  { intros textOf. unfold analyzeUncached. rewrite Hskin, Hexp, Hconf. reflexivity. }
  split.
  - intros other. unfold analyzeImageFast, finishAnalysis.
    destruct (startAnalysis clock url w) as [[cached|] w1]; [reflexivity|].
    rewrite !Hu. reflexivity.
  - intros Hmiss. cbn zeta.
    destruct (miss_caches_result url w Hmiss) as (Hres & Hcache & Hnext).
    cbn zeta in Hres, Hcache, Hnext.
    rewrite Hu in Hres, Hcache, Hnext. cbn [fst snd] in Hres, Hcache, Hnext.
    rewrite Hcache, Hnext, Hres. repeat split; reflexivity.
Qed.

(** C9. When the awaited skin analysis is rejected - the fault that
    reaches the outer [catch] - on a cache miss, [analyzeImageFast] still
    returns: the fully zeroed/false detail of that URL, stored with an
    expiry 60 seconds after the time read by [safeSetCache], whereas every
    result computed from a skin verdict is stored for 300 seconds. *)
Theorem fault_returns_zeroed_detail_cached_60s (url : string) (w : World) :
  fst (startAnalysis clock url w) = None ->
  skinAnalysisOf url = Rejected ->
  let w1 := snd (startAnalysis clock url w) in
  let run := analyzeImageFast clock skinAnalysisOf textAnalysisOf url w in
  fst run =
    {| ImageAnalysisDetail.url := url;
       ImageAnalysisDetail.isExplicit := false;
       ImageAnalysisDetail.skinPercentage := 0%float;
       ImageAnalysisDetail.confidence := 0%float;
       ImageAnalysisDetail.textAnalysis :=
         Some {| TextAnalysisResult.hasExplicitText := false;
                 TextAnalysisResult.confidence := 0%float;
                 TextAnalysisResult.detectedWords := [];
                 TextAnalysisResult.categories := [];
                 TextAnalysisResult.extractedText := "" |} |} /\
  imageCache (snd run) !! imageCacheKey url =
    Some {| entryData := fst run;
            expiry := (clock (ticks w1) + 60 * 1000)%Z |} /\
  fst (startAnalysis clock url (snd run)) =
    (if (clock (ticks (snd run)) >? clock (ticks w1) + 60 * 1000)%Z
     then None else Some (fst run)) /\
  (forall otherSkinAnalysisOf skin,
     otherSkinAnalysisOf url = Resolved skin ->
     snd (analyzeUncached otherSkinAnalysisOf textAnalysisOf url) = 300%Z).
Proof.
  intros Hmiss Hskin. cbn zeta.
  destruct (miss_caches_result url w Hmiss) as (Hres & Hcache & Hnext).
  cbn zeta in Hres, Hcache, Hnext.
  assert (Hu : analyzeUncached skinAnalysisOf textAnalysisOf url =
    ({| ImageAnalysisDetail.url := url;
        ImageAnalysisDetail.isExplicit := false;
        ImageAnalysisDetail.skinPercentage := 0%float;
        ImageAnalysisDetail.confidence := 0%float;
        ImageAnalysisDetail.textAnalysis := Some emptyTextAnalysis |}, 60%Z)).
  { unfold analyzeUncached. rewrite Hskin. reflexivity. }
  rewrite Hu in Hres, Hcache, Hnext. cbn [fst snd] in Hres, Hcache, Hnext.
  rewrite Hcache, Hnext, Hres.
  repeat split; try reflexivity.
  intros other skin Hother. unfold analyzeUncached. rewrite Hother.
  destruct (_ && _); reflexivity.
Qed.

End SingleImageFacts.

Lemma analyzeImageFast_combines_and_caches_300s_witness :
  let run :=
    analyzeImageFast frozenClock (fun _ => Resolved mildSkin)
      (fun _ => Resolved explicitCaption) "u" emptyWorld in
  ImageAnalysisDetail.confidence (fst run) = 0.8%float /\
  ImageAnalysisDetail.isExplicit (fst run) = true /\
  imageCache (snd run) !! imageCacheKey "u" =
    Some {| entryData := fst run; expiry := 1700000300000%Z |}.
Proof.
  pose proof (analyzeImageFast_combines_and_caches_300s frozenClock
                (fun _ => Resolved mildSkin) (fun _ => Resolved explicitCaption)
                "u" emptyWorld mildSkin
                ltac:(vm_compute; reflexivity) eq_refl
                ltac:(vm_compute; reflexivity)) as H.
  cbn zeta in H. destruct H as (Hc & He & _ & _ & _ & Hcache & _).
  cbn zeta. rewrite Hc, He, Hcache.
  split; [vm_compute; reflexivity|]. split; [vm_compute; reflexivity|].
  reflexivity.
Defined.

Lemma short_circuit_skips_ocr_witness :
  analyzeImageFast frozenClock (fun _ => Resolved strongSkin)
    (fun _ => Resolved explicitCaption) "u" emptyWorld =
  analyzeImageFast frozenClock (fun _ => Resolved strongSkin)
    (fun _ => Rejected) "u" emptyWorld.
Proof.
  exact (proj1 (short_circuit_skips_ocr frozenClock
                  (fun _ => Resolved strongSkin) (fun _ => Rejected)
                  "u" emptyWorld strongSkin eq_refl eq_refl
                  ltac:(vm_compute; reflexivity))
               (fun _ => Resolved explicitCaption)).
Defined.

Lemma fault_returns_zeroed_detail_cached_60s_witness :
  let run :=
    analyzeImageFast frozenClock (fun _ => Rejected)
      (fun _ => Resolved explicitCaption) "u" emptyWorld in
  ImageAnalysisDetail.isExplicit (fst run) = false /\
  imageCache (snd run) !! imageCacheKey "u" =
    Some {| entryData := fst run; expiry := 1700000060000%Z |}.
Proof.
  pose proof (fault_returns_zeroed_detail_cached_60s frozenClock
                (fun _ => Rejected) (fun _ => Resolved explicitCaption)
                "u" emptyWorld ltac:(vm_compute; reflexivity) eq_refl) as H.
  cbn zeta in H. destruct H as (Hr & Hcache & _).
  cbn zeta. rewrite Hcache. split; [rewrite Hr; reflexivity|reflexivity].
Defined.

(** ** The order of numbers *)

Section NumberOrder.

Local Open Scope Z_scope.



Lemma SFcompare_rank a b :
  match SFcompare a b with
  | None => rank a = None \/ rank b = None
  | Some c =>
      exists ra rb, rank a = Some ra /\ rank b = Some rb /\
        match c with
        | Lt => before ra rb
        | Eq => ra = rb
        | Gt => before rb ra
        end
  end.
Proof.
  destruct a as [sa|sa| |sa ma ea], b as [sb|sb| |sb mb eb];
    try (simpl; auto; fail);
    try (simpl; eexists _, _; split; [reflexivity|]; split; [reflexivity|];
         try destruct sa; try destruct sb; unfold before; simpl; auto; lia).
  unfold SFcompare.
  change (PosDef.Pos.compare_cont Eq ma mb) with (Pos.compare ma mb).
  eexists _, _. split; [reflexivity|]. split; [reflexivity|].
  destruct sa, sb; unfold before; simpl; try lia;
    destruct (Z.compare_spec ea eb); try (simpl; lia);
    destruct (Pos.compare_spec ma mb); simpl; subst; try reflexivity; lia.
Qed.



Lemma ltb_place x y :
  (x <? y)%float = true <->
  exists a b, place x = Some a /\ place y = Some b /\ before a b.
Proof.
  rewrite FloatAxioms.ltb_spec. unfold SFltb, place.
  pose proof (SFcompare_rank (Prim2SF x) (Prim2SF y)) as H.
  destruct (SFcompare (Prim2SF x) (Prim2SF y)) as [[| |]|].
  - destruct H as (a & b & Ha & Hb & ->). split; [discriminate|].
    intros (a' & b' & Ha' & Hb' & Hlt). unfold before in Hlt.
    rewrite Ha in Ha'. rewrite Hb in Hb'. simplify_eq. lia.
  - destruct H as (a & b & Ha & Hb & Hlt). split; [|reflexivity].
    intros _. exists a, b. auto.
  - destruct H as (a & b & Ha & Hb & Hgt). split; [discriminate|].
    intros (a' & b' & Ha' & Hb' & Hlt). unfold before in *.
    rewrite Ha in Ha'. rewrite Hb in Hb'. simplify_eq. lia.
  - split; [discriminate|].
    intros (a & b & Ha & Hb & _). destruct H; congruence.
Qed.

Lemma leb_place x y :
  (x <=? y)%float = true <->
  exists a b, place x = Some a /\ place y = Some b /\ (before a b \/ a = b).
Proof.
  rewrite FloatAxioms.leb_spec. unfold SFleb, place.
  pose proof (SFcompare_rank (Prim2SF x) (Prim2SF y)) as H.
  destruct (SFcompare (Prim2SF x) (Prim2SF y)) as [[| |]|].
  - destruct H as (a & b & Ha & Hb & ->). split; [|reflexivity].
    intros _. exists b, b. auto.
  - destruct H as (a & b & Ha & Hb & Hlt). split; [|reflexivity].
    intros _. exists a, b. auto.
  - destruct H as (a & b & Ha & Hb & Hgt). split; [discriminate|].
    intros (a' & b' & Ha' & Hb' & Hle). unfold before in *.
    rewrite Ha in Ha'. rewrite Hb in Hb'. simplify_eq.
    destruct Hle as [Hlt| ->]; lia.
  - split; [discriminate|].
    intros (a & b & Ha & Hb & _). destruct H; congruence.
Qed.

Lemma eqb_place x y :
  (x =? y)%float = true <->
  exists a, place x = Some a /\ place y = Some a.
Proof.
  rewrite FloatAxioms.eqb_spec. unfold SFeqb, place.
  pose proof (SFcompare_rank (Prim2SF x) (Prim2SF y)) as H.
  destruct (SFcompare (Prim2SF x) (Prim2SF y)) as [[| |]|].
  - destruct H as (a & b & Ha & Hb & ->). split; [|reflexivity].
    intros _. exists b. auto.
  - destruct H as (a & b & Ha & Hb & Hlt). split; [discriminate|].
    intros (a' & Ha' & Hb'). unfold before in *.
    rewrite Ha in Ha'. rewrite Hb in Hb'. simplify_eq. lia.
  - destruct H as (a & b & Ha & Hb & Hgt). split; [discriminate|].
    intros (a' & Ha' & Hb'). unfold before in *.
    rewrite Ha in Ha'. rewrite Hb in Hb'. simplify_eq. lia.
  - split; [discriminate|].
    intros (a & Ha & Hb). destruct H; congruence.
Qed.

Lemma is_nan_place x : is_nan x = false <-> exists a, place x = Some a.
Proof.
  unfold is_nan. rewrite negb_false_iff, eqb_place.
  split; [intros (a & Ha & _); eauto | intros (a & Ha); eauto].
Qed.

Lemma leb_refl x : is_nan x = false -> (x <=? x)%float = true.
Proof.
  intros H. apply is_nan_place in H as (a & Ha).
  apply leb_place. exists a, a. auto.
Qed.

Lemma leb_trans x y z :
  (x <=? y)%float = true -> (y <=? z)%float = true -> (x <=? z)%float = true.
Proof.
  rewrite !leb_place.
  intros (a & b & Ha & Hb & Hab) (b' & c & Hb' & Hc & Hbc).
  rewrite Hb in Hb'. simplify_eq. exists a, c.
  split; [assumption|]. split; [assumption|].
  unfold before in *. destruct Hab as [Hab| ->], Hbc as [Hbc| ->]; auto.
  left. lia.
Qed.

Lemma ltb_leb x y : (x <? y)%float = true -> (x <=? y)%float = true.
Proof.
  rewrite ltb_place, leb_place. intros (a & b & Ha & Hb & Hlt). eauto 6.
Qed.

Lemma not_ltb_leb x y :
  is_nan x = false -> is_nan y = false ->
  (x <? y)%float = false -> (y <=? x)%float = true.
Proof.
  intros Hx Hy Hlt.
  apply is_nan_place in Hx as (a & Ha). apply is_nan_place in Hy as (b & Hb).
  apply leb_place. exists b, a. split; [assumption|]. split; [assumption|].
  destruct (decide (before a b)) as [Hab|Hab].
  - assert ((x <? y)%float = true) by (apply ltb_place; eauto 6). congruence.
  - unfold before in *. destruct a as [[a1 a2] a3], b as [[b1 b2] b3].
    simpl in *.
    destruct (Z.eq_dec a1 b1), (Z.eq_dec a2 b2), (Z.eq_dec a3 b3);
      subst; auto; left; lia.
Qed.

Lemma ltb_not_nan x y :
  (x <? y)%float = true -> is_nan x = false /\ is_nan y = false.
Proof.
  rewrite ltb_place, !is_nan_place. intros (a & b & Ha & Hb & _). eauto.
Qed.

Lemma nothing_below_neg_infinity x : (x <? neg_infinity)%float = false.
Proof.
  destruct (x <? neg_infinity)%float eqn:H; [|reflexivity].
  apply ltb_place in H as (a & b & Ha & Hb & Hlt).
  unfold place in *. vm_compute in Hb. simplify_eq.
  destruct (Prim2SF x) as [s|s| |s m e]; simpl in Ha; simplify_eq;
    try destruct s; unfold before in Hlt; simpl in Hlt; lia.
Qed.

Lemma above_three_tenths_not_zero x :
  (0.3 <? x)%float = true -> is_zero x = false.
Proof.
  intros H. unfold is_zero.
  destruct (x =? zero)%float eqn:E; [|reflexivity].
  apply ltb_place in H as (a & b & Ha & Hb & Hlt).
  apply eqb_place in E as (c & Hc & H0).
  unfold place in *. vm_compute in Ha, H0. simplify_eq.
  unfold before in Hlt. simpl in Hlt. lia.
Qed.

End NumberOrder.

Section MaxFacts.

Import JS.
Local Open Scope float_scope.

Lemma Math_max_spec x y :
  is_nan x = false -> is_nan y = false ->
  (Math_max x y = x \/ Math_max x y = y) /\
  (x <=? Math_max x y) = true /\ (y <=? Math_max x y) = true.
Proof.
  intros Hx Hy. unfold Math_max. rewrite Hx, Hy. cbn [orb].
  destruct (x <? y) eqn:Hxy.
  - split; [auto|]. split; [apply ltb_leb, Hxy | apply leb_refl, Hy].
  - destruct (y <? x) eqn:Hyx.
    + split; [auto|]. split; [apply leb_refl, Hx | apply ltb_leb, Hyx].
    + pose proof (not_ltb_leb _ _ Hx Hy Hxy) as Hle1.
      pose proof (not_ltb_leb _ _ Hy Hx Hyx) as Hle2.
      destruct (get_sign x); (split; [auto|]); split;
        auto using leb_refl.
Qed.

Lemma Math_max_neg_infinity x : is_nan x = false -> Math_max neg_infinity x = x.
Proof.
  intros Hx. unfold Math_max. rewrite Hx.
  change (is_nan neg_infinity) with false. cbn [orb].
  rewrite nothing_below_neg_infinity.
  destruct (neg_infinity <? x); reflexivity.
Qed.

Lemma fold_Math_max_spec xs a :
  is_nan a = false -> Forall (fun v => is_nan v = false) xs ->
  let m := fold_left Math_max xs a in
  is_nan m = false /\ (m = a \/ m ∈ xs) /\
  (a <=? m) = true /\ Forall (fun v => (v <=? m) = true) xs.
Proof.
  intros Ha Hxs. revert a Ha.
  induction Hxs as [|x xs Hx Hxs IH]; intros a Ha; cbn zeta.
  - simpl. split; [assumption|]. split; [auto|].
    split; [apply leb_refl, Ha | constructor].
  - simpl fold_left.
    destruct (Math_max_spec a x Ha Hx) as (Hsel & Hle1 & Hle2).
    assert (Hn : is_nan (Math_max a x) = false) by (destruct Hsel as [-> | ->]; assumption).
    destruct (IH _ Hn) as (Hm & Hin & Hle & Hall).
    split; [assumption|]. split.
    + destruct Hin as [-> | Hin].
      * destruct Hsel as [-> | ->]; [auto | right; left].
      * right. right. assumption.
    + split; [eapply leb_trans; eassumption|].
      constructor; [eapply leb_trans; eassumption | assumption].
Qed.

(** [Math.max(...xs)] of a non-empty list without NaN is an element of
    the list that no element exceeds. *)
Lemma Math_max_list_spec xs :
  xs <> [] -> Forall (fun v => is_nan v = false) xs ->
  Math_max_list xs ∈ xs /\ Forall (fun v => (v <=? Math_max_list xs) = true) xs.
Proof.
  intros Hne Hxs. destruct xs as [|x xs]; [congruence|].
  inversion Hxs as [|? ? Hx Hxs']; subst.
  unfold Math_max_list. simpl fold_left.
  rewrite (Math_max_neg_infinity x Hx).
  destruct (fold_Math_max_spec xs x Hx Hxs') as (_ & Hin & Hle & Hall).
  cbn zeta in *. split.
  - destruct Hin as [-> | Hin]; [left | right; assumption].
  - constructor; assumption.
Qed.

End MaxFacts.

(** ** The batch orchestrator *)

Section BatchFacts.

Import JS.

Variable clock : nat -> Z.
Variable skinAnalysisOf : string -> Settled ImageAnalysisResult.t.
Variable textAnalysisOf : string -> Settled TextAnalysisResult.t.

Lemma imageCacheKey_inj u u' : imageCacheKey u = imageCacheKey u' -> u = u'.
Proof. unfold imageCacheKey. simpl. intros H. simplify_eq. reflexivity. Qed.

Lemma emptyWorld_sound : imageCacheSound emptyWorld.
Proof. intros u entry H. simpl in H. rewrite lookup_empty in H. discriminate. Qed.

Lemma startAnalysis_sound u w :
  imageCacheSound w ->
  imageCacheSound (snd (startAnalysis clock u w)) /\
  (forall d, fst (startAnalysis clock u w) = Some d -> ImageAnalysisDetail.url d = u).
Proof.
  intros Hw. rewrite startAnalysis_spec.
  destruct (imageCache w !! imageCacheKey u) as [entry|] eqn:E.
  - destruct (clock (ticks w) >? expiry entry)%Z; simpl.
    + split; [|discriminate].
      intros u' e' H. simpl in H.
      apply lookup_delete_Some in H as [_ H]. eapply Hw, H.
    + split; [exact Hw|]. intros d Hd. injection Hd as <-. eapply Hw. exact E.
  - simpl. split; [exact Hw | discriminate].
Qed.

Lemma analyzeUncached_url u :
  ImageAnalysisDetail.url (fst (analyzeUncached skinAnalysisOf textAnalysisOf u)) = u.
Proof.
  unfold analyzeUncached.
  destruct (skinAnalysisOf u) as [skin|]; [|reflexivity].
  destruct (_ && _); reflexivity.
Qed.

Lemma finishAnalysis_sound u w :
  ImageAnalysisDetail.url
    (fst (finishAnalysis clock skinAnalysisOf textAnalysisOf u w)) = u /\
  (imageCacheSound w ->
   imageCacheSound (snd (finishAnalysis clock skinAnalysisOf textAnalysisOf u w))).
Proof.
  rewrite finishAnalysis_spec. cbn [fst snd].
  split; [apply analyzeUncached_url|].
  intros Hw u' e' H. rewrite setImageCache_spec in H. cbn [imageCache] in H.
  destruct (decide (imageCacheKey u = imageCacheKey u')) as [E|E].
  - rewrite E, lookup_insert_eq in H. apply imageCacheKey_inj in E.
    injection H as <-. cbn [entryData]. rewrite analyzeUncached_url. exact E.
  - rewrite lookup_insert_ne in H by assumption. eapply Hw, H.
Qed.


Lemma startAll_spec batch w :
  map fst (fst (startAll clock batch w)) = batch /\
  (imageCacheSound w ->
   imageCacheSound (snd (startAll clock batch w)) /\
   Forall startedSound (fst (startAll clock batch w))).
Proof.
  revert w. induction batch as [|u batch IH]; intros w.
  - simpl. split; [reflexivity|]. intros Hw. split; [exact Hw | constructor].
  - simpl.
    pose proof (startAnalysis_sound u w) as Hs.
    destruct (startAnalysis clock u w) as [cached w1]. cbn [fst snd] in Hs.
    specialize (IH w1).
    destruct (startAll clock batch w1) as [started w2]. cbn [fst snd] in *.
    destruct IH as [IH1 IH2]. split; [simpl; rewrite IH1; reflexivity|].
    intros Hw. destruct (Hs Hw) as [Hw1 Hd]. destruct (IH2 Hw1) as [Hw2 Hall].
    split; [exact Hw2|]. constructor; [exact Hd | exact Hall].
Qed.

Lemma finishAll_spec started w :
  length (fst (finishAll clock skinAnalysisOf textAnalysisOf started w)) =
    length started /\
  (imageCacheSound w -> Forall startedSound started ->
   map ImageAnalysisDetail.url
     (fst (finishAll clock skinAnalysisOf textAnalysisOf started w)) =
     map fst started /\
   imageCacheSound (snd (finishAll clock skinAnalysisOf textAnalysisOf started w))).
Proof.
  revert w. induction started as [|[u [cached|]] started IH]; intros w.
  - simpl. split; [reflexivity|]. intros Hw _. split; [reflexivity | exact Hw].
  - simpl. specialize (IH w).
    destruct (finishAll clock skinAnalysisOf textAnalysisOf started w)
      as [results w1]. cbn [fst snd] in *.
    destruct IH as [IH1 IH2]. split; [simpl; rewrite IH1; reflexivity|].
    intros Hw Hall. apply Forall_cons in Hall as [Hd Hall'].
    destruct (IH2 Hw Hall') as [Hmap Hw1].
    split; [|exact Hw1]. simpl. rewrite Hmap, (Hd cached eq_refl). reflexivity.
  - simpl.
    pose proof (finishAnalysis_sound u w) as [Hu Hs].
    destruct (finishAnalysis clock skinAnalysisOf textAnalysisOf u w)
      as [result w1]. cbn [fst snd] in *.
    specialize (IH w1).
    destruct (finishAll clock skinAnalysisOf textAnalysisOf started w1)
      as [results w2]. cbn [fst snd] in *.
    destruct IH as [IH1 IH2]. split; [simpl; rewrite IH1; reflexivity|].
    intros Hw Hall. apply Forall_cons in Hall as [Hd Hall'].
    destruct (IH2 (Hs Hw) Hall') as [Hmap Hw2].
    split; [|exact Hw2]. simpl. rewrite Hmap, Hu. reflexivity.
Qed.

Lemma runChunk_spec batch w :
  length (fst (runChunk clock skinAnalysisOf textAnalysisOf batch w)) =
    length batch /\
  (imageCacheSound w ->
   map ImageAnalysisDetail.url
     (fst (runChunk clock skinAnalysisOf textAnalysisOf batch w)) = batch /\
   imageCacheSound (snd (runChunk clock skinAnalysisOf textAnalysisOf batch w))).
Proof.
  unfold runChunk.
  pose proof (startAll_spec batch w) as [Hfst Hs].
  destruct (startAll clock batch w) as [started w1]. cbn [fst snd] in *.
  pose proof (finishAll_spec started w1) as [Hlen Hf].
  split.
  - rewrite Hlen, <- Hfst, length_map. reflexivity.
  - intros Hw. destruct (Hs Hw) as [Hw1 Hall].
    destruct (Hf Hw1 Hall) as [Hmap Hw2]. rewrite Hmap, Hfst. auto.
Qed.

(** Induction two elements at a time, the way the chunk loop advances. *)
Lemma list_pair_ind {A} (P : list A -> Prop) :
  P [] -> (forall a, P [a]) ->
  (forall a b rest, P rest -> P (a :: b :: rest)) ->
  forall l, P l.
Proof.
  intros H0 H1 H2 l.
  assert (H : P l /\ forall a, P (a :: l)).
  { induction l as [|b l [IH1 IH2]]; [auto|].
    split; [apply IH2|]. intros a. apply H2, IH1. }
  apply H.
Qed.

Lemma runChunks_spec imageUrls w :
  length (fst (runChunks clock skinAnalysisOf textAnalysisOf imageUrls w)) =
    length imageUrls /\
  (imageCacheSound w ->
   map ImageAnalysisDetail.url
     (fst (runChunks clock skinAnalysisOf textAnalysisOf imageUrls w)) = imageUrls /\
   imageCacheSound (snd (runChunks clock skinAnalysisOf textAnalysisOf imageUrls w))).
Proof.
  revert w. induction imageUrls as [|u|u1 u2 rest IH] using list_pair_ind; intros w.
  - simpl. split; [reflexivity|]. auto.
  - apply (runChunk_spec [u] w).
  - cbn [runChunks].
    pose proof (runChunk_spec [u1; u2] w) as [Hlen Hs].
    destruct (runChunk clock skinAnalysisOf textAnalysisOf [u1; u2] w)
      as [batchResults w1]. cbn [fst snd] in *.
    specialize (IH w1).
    destruct (runChunks clock skinAnalysisOf textAnalysisOf rest w1)
      as [results w2]. cbn [fst snd] in *.
    destruct IH as [IH1 IH2]. split.
    + rewrite length_app, Hlen, IH1. reflexivity.
    + intros Hw. destruct (Hs Hw) as [Hmap Hw1].
      destruct (IH2 Hw1) as [Hmap' Hw2].
      rewrite map_app, Hmap, Hmap'. auto.
Qed.

Lemma getBatchCache_spec key w :
  getBatchCache clock key w =
  match batchCache w !! key with
  | None => (None, w)
  | Some entry =>
      if (clock (ticks w) >? expiry entry)%Z
      then (None, {| imageCache := imageCache w;
                     batchCache := delete key (batchCache w);
                     ticks := S (ticks w) |})
      else (Some (entryData entry),
            {| imageCache := imageCache w;
               batchCache := batchCache w;
               ticks := S (ticks w) |})
  end.
Proof.
  unfold getBatchCache, safeGetCache.
  destruct (batchCache w !! key) as [entry|].
  - destruct (clock (ticks w) >? expiry entry)%Z; reflexivity.
  - destruct w; reflexivity.
Qed.

Lemma getBatchCache_imageCache key w :
  imageCache (snd (getBatchCache clock key w)) = imageCache w.
Proof.
  rewrite getBatchCache_spec.
  destruct (batchCache w !! key) as [entry|]; [|reflexivity].
  destruct (clock (ticks w) >? expiry entry)%Z; reflexivity.
Qed.

Lemma analyzeImagesBatch_miss imageUrls w :
  fst (getBatchCache clock (batchCacheKey imageUrls) w) = None ->
  let w1 := snd (getBatchCache clock (batchCacheKey imageUrls) w) in
  let run := runChunks clock skinAnalysisOf textAnalysisOf imageUrls w1 in
  analyzeImagesBatch clock skinAnalysisOf textAnalysisOf imageUrls w =
  (aggregate (fst run),
   setBatchCache clock (batchCacheKey imageUrls) (aggregate (fst run)) 300 (snd run)).
Proof.
  unfold analyzeImagesBatch.
  destruct (getBatchCache clock (batchCacheKey imageUrls) w) as [cached w1].
  cbn [fst snd]. intros ->.
  destruct (runChunks clock skinAnalysisOf textAnalysisOf imageUrls w1).
  reflexivity.
Qed.

Lemma analyzeImagesBatch_hit imageUrls w entry :
  batchCache w !! batchCacheKey imageUrls = Some entry ->
  (clock (ticks w) <= expiry entry)%Z ->
  fst (analyzeImagesBatch clock skinAnalysisOf textAnalysisOf imageUrls w) =
  entryData entry.
Proof.
  intros Hentry Hlive. unfold analyzeImagesBatch.
  rewrite getBatchCache_spec, Hentry.
  destruct (Z.gtb_spec (clock (ticks w)) (expiry entry)); [lia | reflexivity].
Qed.

End BatchFacts.

Section AggregateFacts.

Import JS.

Lemma filter_nonempty_existsb {A} (f : A -> bool) (l : list A) :
  (0 <? length (List.filter f l))%nat = existsb f l.
Proof.
  induction l as [|a l IH]; [reflexivity|].
  simpl. destruct (f a); [reflexivity | exact IH].
Qed.

Lemma filter_nil_length {A} (f : A -> bool) (l : list A) :
  (0 <? length (List.filter f l))%nat = false <-> List.filter f l = [].
Proof.
  destruct (List.filter f l) as [|a l'].
  - split; reflexivity.
  - split; intros H; discriminate H.
Qed.

Lemma setAdd_spec x s :
  NoDup s -> NoDup (setAdd x s) /\ forall y, y ∈ setAdd x s <-> y = x \/ y ∈ s.
Proof.
  intros Hs. unfold setAdd. case_bool_decide as Hx.
  - split; [exact Hs|]. intros y. split; [auto|]. intros [->|]; assumption.
  - split.
    + apply NoDup_app. split; [exact Hs|]. split; [|apply NoDup_singleton].
      intros y Hy Hy'. apply list_elem_of_singleton in Hy'. subst. contradiction.
    + intros y. rewrite elem_of_app, list_elem_of_singleton. tauto.
Qed.

Lemma fold_setAdd_spec xs s :
  NoDup s ->
  NoDup (fold_left (fun s x => setAdd x s) xs s) /\
  forall y, y ∈ fold_left (fun s x => setAdd x s) xs s <-> y ∈ s \/ y ∈ xs.
Proof.
  revert s. induction xs as [|x xs IH]; intros s Hs; simpl.
  - split; [exact Hs|]. intros y. rewrite elem_of_nil. tauto.
  - destruct (setAdd_spec x s Hs) as [Hnd Hin].
    destruct (IH _ Hnd) as [Hnd' Hin'].
    split; [exact Hnd'|]. intros y. rewrite Hin', Hin, elem_of_cons. tauto.
Qed.

Lemma collectCategories_fold results acc :
  NoDup acc ->
  let step := fun allCategories analysis =>
    match ImageAnalysisDetail.textAnalysis analysis with
    | Some t =>
        fold_left (fun s category => setAdd category s)
          (TextAnalysisResult.categories t) allCategories
    | None => allCategories
    end in
  NoDup (fold_left step results acc) /\
  forall c, c ∈ fold_left step results acc <->
            c ∈ acc \/
            exists d t, d ∈ results /\
                        ImageAnalysisDetail.textAnalysis d = Some t /\
                        c ∈ TextAnalysisResult.categories t.
Proof.
  cbn zeta. revert acc. induction results as [|d results IH]; intros acc Hacc; simpl.
  - split; [exact Hacc|]. intros c. split; [auto|].
    intros [H|(d & t & Hd & _)]; [exact H|]. apply elem_of_nil in Hd. contradiction.
  - destruct (ImageAnalysisDetail.textAnalysis d) as [t|] eqn:Ht.
    + destruct (fold_setAdd_spec (TextAnalysisResult.categories t) acc Hacc)
        as [Hnd Hin].
      destruct (IH _ Hnd) as [Hnd' Hin'].
      split; [exact Hnd'|]. intros c. rewrite Hin', Hin. split.
      * intros [[H|H]|(d' & t' & Hd' & Ht' & Hc)]; [auto| |].
        -- right. exists d, t. rewrite elem_of_cons. auto.
        -- right. exists d', t'. rewrite elem_of_cons. auto.
      * intros [H|(d' & t' & Hd' & Ht' & Hc)]; [auto|].
        apply elem_of_cons in Hd' as [->|Hd'].
        -- rewrite Ht in Ht'. injection Ht' as <-. auto.
        -- right. eauto.
    + destruct (IH _ Hacc) as [Hnd' Hin'].
      split; [exact Hnd'|]. intros c. rewrite Hin'. split.
      * intros [H|(d' & t' & Hd' & Ht' & Hc)]; [auto|].
        right. exists d', t'. rewrite elem_of_cons. auto.
      * intros [H|(d' & t' & Hd' & Ht' & Hc)]; [auto|].
        apply elem_of_cons in Hd' as [->|Hd']; [congruence|].
        right. eauto.
Qed.

Lemma collectCategories_spec results :
  NoDup (collectCategories results) /\
  forall c, c ∈ collectCategories results <->
            exists d t, d ∈ results /\
                        ImageAnalysisDetail.textAnalysis d = Some t /\
                        c ∈ TextAnalysisResult.categories t.
Proof.
  destruct (collectCategories_fold results [] (@NoDup_nil_2 string)) as [Hnd Hin].
  split; [exact Hnd|]. intros c. unfold collectCategories.
  rewrite Hin, elem_of_nil. tauto.
Qed.

Lemma hasExplicitTextAbove_spec d :
  hasExplicitTextAbove d = true <->
  exists t, ImageAnalysisDetail.textAnalysis d = Some t /\
            TextAnalysisResult.hasExplicitText t = true /\
            gt (TextAnalysisResult.confidence t) 0.3%float = true.
Proof.
  unfold hasExplicitTextAbove.
  destruct (ImageAnalysisDetail.textAnalysis d) as [t|].
  - rewrite andb_true_iff. split.
    + intros [H1 H2]. exists t. auto.
    + intros (t' & [= <-] & H1 & H2). auto.
  - split; [discriminate|]. intros (t & Ht & _). discriminate.
Qed.

(** For a detail that passes the text filter, [confidence || 0] is the
    confidence itself, and it is a number. *)
Lemma textConfidenceOf_above d :
  hasExplicitTextAbove d = true ->
  exists t, ImageAnalysisDetail.textAnalysis d = Some t /\
            textConfidenceOf d = TextAnalysisResult.confidence t /\
            is_nan (TextAnalysisResult.confidence t) = false.
Proof.
  intros H. apply hasExplicitTextAbove_spec in H as (t & Ht & _ & Hgt).
  exists t. split; [exact Ht|]. unfold textConfidenceOf. rewrite Ht.
  unfold gt in Hgt. destruct (ltb_not_nan _ _ Hgt) as [_ Hn].
  unfold or_zero. rewrite Hn, (above_three_tenths_not_zero _ Hgt). auto.
Qed.

End AggregateFacts.

Section BatchClaims.

Import JS.

Variable clock : nat -> Z.
Variable skinAnalysisOf : string -> Settled ImageAnalysisResult.t.
Variable textAnalysisOf : string -> Settled TextAnalysisResult.t.

(** C8. On a batch cache miss, [analyzeImagesBatch] returns one detail
    per URL, in input order (each detail is the one of the URL at its
    position, provided the image cache files details under their own
    URL); hasExplicitContent holds when some detail is explicit or some
    detail has explicit text with text confidence above 0.3;
    detectedCategories is the duplicate-free union of the categories of
    all details; confidence is [max(overallConfidence, textConfidence)],
    where overallConfidence is 0 without explicit details and otherwise
    the largest confidence among them, and textConfidence is 0 without
    details that pass the text filter and otherwise the largest text
    confidence among them. *)
Theorem batch_aggregates_details_in_input_order
    (imageUrls : list string) (w : World) :
  fst (getBatchCache clock (batchCacheKey imageUrls) w) = None ->
  let r := fst (analyzeImagesBatch clock skinAnalysisOf textAnalysisOf imageUrls w) in
  let details := ExplicitContentAnalysis.details r in
  let explicitImages := List.filter ImageAnalysisDetail.isExplicit details in
  let imagesWithExplicitText := List.filter hasExplicitTextAbove details in
  length details = length imageUrls /\
  (imageCacheSound w -> map ImageAnalysisDetail.url details = imageUrls) /\
  ExplicitContentAnalysis.hasExplicitContent r =
    (existsb ImageAnalysisDetail.isExplicit details ||
     existsb hasExplicitTextAbove details) /\
  (forall d, hasExplicitTextAbove d = true <->
     exists t, ImageAnalysisDetail.textAnalysis d = Some t /\
               TextAnalysisResult.hasExplicitText t = true /\
               gt (TextAnalysisResult.confidence t) 0.3%float = true) /\
  NoDup (ExplicitContentAnalysis.detectedCategories r) /\
  (forall c, c ∈ ExplicitContentAnalysis.detectedCategories r <->
     exists d t, d ∈ details /\
                 ImageAnalysisDetail.textAnalysis d = Some t /\
                 c ∈ TextAnalysisResult.categories t) /\
  (exists overallConfidence,
     ExplicitContentAnalysis.confidence r =
       Math_max overallConfidence (ExplicitContentAnalysis.textConfidence r) /\
     (explicitImages = [] -> overallConfidence = 0%float) /\
     (explicitImages <> [] ->
      Forall (fun d => is_nan (ImageAnalysisDetail.confidence d) = false)
        explicitImages ->
      (exists d, d ∈ explicitImages /\
                 overallConfidence = ImageAnalysisDetail.confidence d) /\
      Forall (fun d => (ImageAnalysisDetail.confidence d <=? overallConfidence)%float
                       = true) explicitImages)) /\
  (imagesWithExplicitText = [] ->
   ExplicitContentAnalysis.textConfidence r = 0%float) /\
  (imagesWithExplicitText <> [] ->
   (exists d t, d ∈ imagesWithExplicitText /\
                ImageAnalysisDetail.textAnalysis d = Some t /\
                ExplicitContentAnalysis.textConfidence r =
                  TextAnalysisResult.confidence t) /\
   (forall d t, d ∈ imagesWithExplicitText ->
                ImageAnalysisDetail.textAnalysis d = Some t ->
                (TextAnalysisResult.confidence t <=?
                 ExplicitContentAnalysis.textConfidence r)%float = true)).
Proof.
  intros Hmiss. cbn zeta.
  rewrite (analyzeImagesBatch_miss clock skinAnalysisOf textAnalysisOf imageUrls w Hmiss).
  cbn [fst].
  pose proof (runChunks_spec clock skinAnalysisOf textAnalysisOf imageUrls
                (snd (getBatchCache clock (batchCacheKey imageUrls) w)))
    as [Hlen Hsound].
  set (results := fst (runChunks clock skinAnalysisOf textAnalysisOf imageUrls
                         (snd (getBatchCache clock (batchCacheKey imageUrls) w)))) in *.
  unfold aggregate.
  cbn [ExplicitContentAnalysis.details ExplicitContentAnalysis.hasExplicitContent
       ExplicitContentAnalysis.detectedCategories ExplicitContentAnalysis.confidence
       ExplicitContentAnalysis.textConfidence].
  split; [exact Hlen|].
  split.
  { intros Hw. apply Hsound. intros u entry H.
    rewrite getBatchCache_imageCache in H. eapply Hw, H. }
  split; [rewrite !filter_nonempty_existsb; reflexivity|].
  split; [exact hasExplicitTextAbove_spec|].
  destruct (collectCategories_spec results) as [Hnd Hcat].
  split; [exact Hnd|]. split; [exact Hcat|].
  split.
  { eexists. split; [reflexivity|].
    destruct (List.filter ImageAnalysisDetail.isExplicit results) as [|d ds] eqn:E.
    - split; [reflexivity | congruence].
    - split; [discriminate|]. intros _ Hnan.
      change (0 <? length (d :: ds))%nat with true. cbv iota.
      destruct (Math_max_list_spec
                  (map ImageAnalysisDetail.confidence (d :: ds))) as [Hin Hall].
      + discriminate.
      + apply List.Forall_map. exact Hnan.
      + split.
        * apply list_elem_of_In, in_map_iff in Hin as (d' & Hd' & Hin).
          exists d'. split; [apply list_elem_of_In, Hin | symmetry; exact Hd'].
        * apply List.Forall_map in Hall. exact Hall. }
  destruct (List.filter hasExplicitTextAbove results) as [|d ds] eqn:E.
  - split; [reflexivity | congruence].
  - split; [discriminate|]. intros _.
    change (0 <? length (d :: ds))%nat with true. cbv iota.
    assert (Hfilter : forall d', d' ∈ d :: ds -> hasExplicitTextAbove d' = true).
    { intros d' Hd'. rewrite <- E in Hd'.
      apply list_elem_of_In, filter_In in Hd' as [_ Hd']. exact Hd'. }
    destruct (Math_max_list_spec (map textConfidenceOf (d :: ds))) as [Hin Hall].
    + discriminate.
    + apply List.Forall_map. apply List.Forall_forall. intros d' Hd'.
      apply list_elem_of_In in Hd'.
      destruct (textConfidenceOf_above d' (Hfilter d' Hd')) as (t & _ & -> & Hn).
      exact Hn.
    + split.
      * apply list_elem_of_In, in_map_iff in Hin as (d' & Hd' & Hin).
        apply list_elem_of_In in Hin.
        destruct (textConfidenceOf_above d' (Hfilter d' Hin)) as (t & Ht & Hc & _).
        exists d', t. split; [exact Hin|]. split; [exact Ht|]. congruence.
      * intros d' t Hd' Ht.
        apply List.Forall_map in Hall.
        rewrite List.Forall_forall in Hall.
        specialize (Hall d' (proj1 (list_elem_of_In _ _) Hd')).
        destruct (textConfidenceOf_above d' (Hfilter d' Hd')) as (t' & Ht' & Hc & _).
        rewrite Ht in Ht'. injection Ht' as <-. rewrite <- Hc. exact Hall.
Qed.

End BatchClaims.

(** C10. The batch cache key is not injective: the distinct URL lists
    [["a,b"]] and [["a"; "b"]] have the same key, so after a miss on the
    first list the entry written for it is found under the key of the
    second, and a call for the second list made before the entry expires
    returns that result unchanged, with its single detail (of URL
    ["a,b"]) for the two URLs asked. *)
Theorem batch_cache_key_collision :
  ["a,b"%string] <> ["a"; "b"]%string /\
  batchCacheKey ["a,b"] = batchCacheKey ["a"; "b"] /\
  (forall clock skinAnalysisOf textAnalysisOf w,
     fst (getBatchCache clock (batchCacheKey ["a,b"]) w) = None ->
     let first := analyzeImagesBatch clock skinAnalysisOf textAnalysisOf ["a,b"] w in
     let second :=
       analyzeImagesBatch clock skinAnalysisOf textAnalysisOf ["a"; "b"] (snd first) in
     length (ExplicitContentAnalysis.details (fst first)) = 1%nat /\
     exists entry,
       batchCache (snd first) !! batchCacheKey ["a"; "b"] = Some entry /\
       entryData entry = fst first /\
       ((clock (ticks (snd first)) <= expiry entry)%Z -> fst second = fst first)) /\
  (let first :=
     analyzeImagesBatch frozenClock (fun _ => Resolved mildSkin) (fun _ => Rejected)
       ["a,b"] emptyWorld in
   let second :=
     analyzeImagesBatch frozenClock (fun _ => Resolved mildSkin) (fun _ => Rejected)
       ["a"; "b"] (snd first) in
   fst second = fst first /\
   map ImageAnalysisDetail.url (ExplicitContentAnalysis.details (fst second)) =
     ["a,b"%string]).
Proof.
  split; [discriminate|]. split; [reflexivity|]. split.
  - intros clock skinOf textOf w Hmiss. cbn zeta.
    rewrite (analyzeImagesBatch_miss clock skinOf textOf ["a,b"] w Hmiss).
    cbn [fst snd].
    pose proof (runChunks_spec clock skinOf textOf ["a,b"]
                  (snd (getBatchCache clock (batchCacheKey ["a,b"]) w)))
      as [Hlen _].
    split; [exact Hlen|].
    set (run := runChunks clock skinOf textOf ["a,b"]
                  (snd (getBatchCache clock (batchCacheKey ["a,b"]) w))).
    assert (Hentry :
      batchCache (setBatchCache clock (batchCacheKey ["a,b"])
                    (aggregate (fst run)) 300 (snd run))
        !! batchCacheKey ["a"; "b"] =
      Some {| entryData := aggregate (fst run);
              expiry := (clock (ticks (snd run)) + 300 * 1000)%Z |}).
    { change (batchCacheKey ["a"; "b"]) with (batchCacheKey ["a,b"]).
      unfold setBatchCache, safeSetCache. cbn [batchCache].
      apply lookup_insert_eq. }
    eexists. split; [exact Hentry|]. split; [reflexivity|].
    cbn [entryData expiry]. intros Hlive.
    apply (analyzeImagesBatch_hit clock skinOf textOf ["a"; "b"] _ _ Hentry Hlive).
  - vm_compute. split; reflexivity.
Qed.

Lemma batch_aggregates_details_in_input_order_witness :
  let r :=
    fst (analyzeImagesBatch frozenClock (fun _ => Resolved mildSkin)
           (fun _ => Resolved explicitCaption) ["a"; "b"; "c"] emptyWorld) in
  map ImageAnalysisDetail.url (ExplicitContentAnalysis.details r) =
    ["a"; "b"; "c"]%string /\
  ExplicitContentAnalysis.hasExplicitContent r = true /\
  ExplicitContentAnalysis.detectedCategories r =
    ["sexual"; "pornography"]%string.
Proof.
  pose proof (batch_aggregates_details_in_input_order frozenClock
                (fun _ => Resolved mildSkin) (fun _ => Resolved explicitCaption)
                ["a"; "b"; "c"]%string emptyWorld
                ltac:(vm_compute; reflexivity)) as H.
  cbn zeta in H. destruct H as (_ & Hurls & _).
  cbn zeta. split; [exact (Hurls emptyWorld_sound)|].
  vm_compute. split; reflexivity.
Defined.

(** * Further properties of the code *)

(** ** The TTL cache *)

Section TTLCacheFacts.

Context {V : Type}.
Variable clock : nat -> Z.
Implicit Types (cache : gmap string (CacheEntry V)) (n : nat) (key : string).

Local Open Scope Z_scope.

(** X1. [safeGetCache] answers with a value exactly when the key has an
    entry whose expiry is not before the time it reads; a missing key
    leaves the map and the clock untouched; an expired entry is deleted
    and nothing is returned; entries under other keys are never touched. *)
Theorem get_answers_live_entries_only key cache n :
  (forall v, fst (safeGetCache clock key (cache, n)) = Some v <->
     exists entry, cache !! key = Some entry /\ entryData entry = v /\
                   clock n <= expiry entry) /\
  (cache !! key = None -> safeGetCache clock key (cache, n) = (None, (cache, n))) /\
  (forall entry, cache !! key = Some entry -> clock n > expiry entry ->
     safeGetCache clock key (cache, n) = (None, (delete key cache, S n))) /\
  (forall other, other <> key ->
     fst (snd (safeGetCache clock key (cache, n))) !! other = cache !! other).
Proof.
  unfold safeGetCache. repeat split.
  - destruct (cache !! key) as [entry|]; [|discriminate].
    destruct (Z.gtb_spec (clock n) (expiry entry)); [discriminate|].
    simpl. intros [= <-]. exists entry. repeat split; lia.
  - intros (entry & -> & <- & Hlive).
    destruct (Z.gtb_spec (clock n) (expiry entry)); [lia | reflexivity].
  - intros ->. reflexivity.
  - intros entry -> Hdead.
    destruct (Z.gtb_spec (clock n) (expiry entry)); [reflexivity | lia].
  - intros other Hne. destruct (cache !! key) as [entry|]; [|reflexivity].
    destruct (clock n >? expiry entry); simpl; [|reflexivity].
    apply lookup_delete_ne. congruence.
Qed.

(** X2. After [safeSetCache key value ttl] a lookup of the key returns the
    value as long as the time read by the lookup is at most the time read
    by the write plus ttl x 1000 ms; later it returns nothing and removes
    the key; the write leaves the other keys as they were. *)
Theorem set_then_get_round_trip key (value : V) ttl cache n :
  let st := safeSetCache clock key value ttl (cache, n) in
  let deadline := clock n + ttl * 1000 in
  snd st = S n /\
  (clock (S n) <= deadline ->
   safeGetCache clock key st = (Some value, (fst st, S (S n)))) /\
  (clock (S n) > deadline ->
   fst (safeGetCache clock key st) = None /\
   fst (snd (safeGetCache clock key st)) !! key = None) /\
  (forall other, other <> key -> fst st !! other = cache !! other).
Proof.
  cbn zeta. unfold safeSetCache, safeGetCache. cbn [fst snd].
  rewrite lookup_insert_eq. cbn [expiry entryData].
  split; [reflexivity|]. split; [|split].
  - intros Hlive.
    destruct (Z.gtb_spec (clock (S n)) (clock n + ttl * 1000)); [lia | reflexivity].
  - intros Hdead.
    destruct (Z.gtb_spec (clock (S n)) (clock n + ttl * 1000)); [|lia].
    cbn [fst snd]. split; [reflexivity|]. apply lookup_delete_eq.
  - intros other Hne. apply lookup_insert_ne. congruence.
Qed.

(** X3. Writing a key twice leaves the same map as the second write alone:
    the second value and expiry replace the first, whatever the first TTL
    was, and a lookup answers by the second expiry. *)
Theorem last_write_wins key (v1 v2 : V) ttl1 ttl2 cache n :
  let st := safeSetCache clock key v2 ttl2
              (safeSetCache clock key v1 ttl1 (cache, n)) in
  st = safeSetCache clock key v2 ttl2 (cache, S n) /\
  fst st !! key =
    Some {| entryData := v2; expiry := clock (S n) + ttl2 * 1000 |} /\
  fst (safeGetCache clock key st) =
    if clock (S (S n)) >? clock (S n) + ttl2 * 1000 then None else Some v2.
Proof.
  cbn zeta. unfold safeSetCache. cbn [fst snd].
  split; [|split].
  - f_equal. apply insert_insert_eq.
  - apply lookup_insert_eq.
  - unfold safeGetCache. rewrite lookup_insert_eq. cbn [expiry entryData].
    destruct (_ >? _); reflexivity.
Qed.

Lemma clearExpiredCache_lookup cache n key :
  fst (clearExpiredCache clock (cache, n)) !! key =
  match cache !! key with
  | Some entry => if clock n >? expiry entry then None else Some entry
  | None => None
  end.
Proof.
  unfold clearExpiredCache. cbn [fst].
  destruct (cache !! key) as [entry|] eqn:E.
  - destruct (Z.gtb_spec (clock n) (expiry entry)) as [Hd|Hl].
    + apply map_lookup_filter_None. right. intros x Hx.
      rewrite E in Hx. injection Hx as <-. simpl. lia.
    + apply map_lookup_filter_Some. split; [exact E|]. simpl. lia.
  - apply map_lookup_filter_None. left. exact E.
Qed.

(** X4. [clearExpiredCache] reads the clock once and removes exactly the
    entries whose expiry is before that time; if the clock does not run
    backwards between the sweep and the next reading, lookups answer the
    same with and without the sweep. *)
Theorem clearExpiredCache_removes_exactly_expired cache n :
  let swept := clearExpiredCache clock (cache, n) in
  snd swept = S n /\
  (forall key, fst swept !! key =
     match cache !! key with
     | Some entry => if clock n >? expiry entry then None else Some entry
     | None => None
     end) /\
  (clock n <= clock (S n) ->
   forall key, fst (safeGetCache clock key swept) =
               fst (safeGetCache clock key (cache, S n))).
Proof.
  cbn zeta. split; [reflexivity|]. split; [apply clearExpiredCache_lookup|].
  intros Hmono key.
  pose proof (clearExpiredCache_lookup cache n key) as Hlook.
  unfold clearExpiredCache in *. cbn [fst snd] in *. unfold safeGetCache.
  rewrite Hlook. destruct (cache !! key) as [entry|]; [|reflexivity].
  destruct (Z.gtb_spec (clock n) (expiry entry)) as [Hd|Hl].
  - destruct (Z.gtb_spec (clock (S n)) (expiry entry)); [reflexivity | lia].
  - destruct (clock (S n) >? expiry entry); reflexivity.
Qed.

End TTLCacheFacts.

(** ** Text normalization and the keyword test *)

Section NormalizeFacts.

Ltac by_all_chars c :=
  destruct c as [[] [] [] [] [] [] [] []]; vm_compute;
  repeat split; intros; try discriminate; try reflexivity; auto.

Lemma punctuated_char_class c :
  let d := toLowerChar c in
  let e := if isWordChar d || isSpaceChar d then d else space in
  isSpaceChar e = true \/ (isSpaceChar e = false /\ isLowerWordChar e = true).
Proof. by_all_chars c. Qed.

Lemma lowerWordChar_facts c :
  isLowerWordChar c = true ->
  isSpaceChar c = false /\ isBlank c = false /\ toLowerChar c = c /\
  isWordChar c = true.
Proof. by_all_chars c. Qed.

Lemma blank_facts c :
  isBlank c = true -> c = space /\ isSpaceChar c = true.
Proof. by_all_chars c. Qed.

Lemma space_facts :
  isBlank space = true /\ isSpaceChar space = true /\ toLowerChar space = space /\
  isWordChar space = false.
Proof. vm_compute. auto. Qed.

Lemma canonicalize_of_lower c :
  toLowerChar c = c -> toLowerChar (ascii_of_N (canonicalize c)) = c.
Proof. by_all_chars c. Qed.


Lemma collapse_gives_single_blanks text b :
  singleBlanks b (collapseSpaces b (removePunctuation (toLowerCase text))) = true.
Proof.
  revert b. induction text as [|c text IH]; intros b; [reflexivity|].
  unfold removePunctuation, toLowerCase in *. cbn [mapString collapseSpaces].
  destruct (punctuated_char_class c) as [Hs|[Hs Hw]]; cbv zeta in Hs |- *.
  - rewrite Hs. destruct b; [apply IH|].
    cbn [singleBlanks]. destruct space_facts as (-> & _). apply IH.
  - rewrite Hs. cbn [singleBlanks].
    destruct (lowerWordChar_facts _ Hw) as (_ & -> & _).
    rewrite Hw. apply IH.
Qed.

Lemma singleBlanks_weaken b s : singleBlanks b s = true -> singleBlanks false s = true.
Proof.
  destruct s as [|c s]; [reflexivity|]. cbn [singleBlanks].
  destruct (isBlank c); [|auto]. rewrite andb_true_iff. intros [_ H]. exact H.
Qed.

Lemma trimStart_single_blanks b s :
  singleBlanks b s = true -> singleBlanks true (trimStart s) = true.
Proof.
  destruct s as [|c s]; [reflexivity|]. cbn [singleBlanks trimStart].
  destruct (isBlank c) eqn:Hc.
  - destruct (blank_facts c Hc) as [_ ->]. rewrite andb_true_iff. intros [_ H].
    destruct s as [|d s]; [reflexivity|]. cbn [singleBlanks trimStart] in *.
    destruct (isBlank d) eqn:Hd; [discriminate|].
    apply andb_true_iff in H as [Hw H].
    destruct (lowerWordChar_facts d Hw) as (-> & _).
    cbn [singleBlanks]. rewrite Hd, Hw. exact H.
  - rewrite andb_true_iff. intros [Hw H].
    destruct (lowerWordChar_facts c Hw) as (-> & _).
    cbn [singleBlanks]. rewrite Hc, Hw. exact H.
Qed.

Lemma trimEnd_words b s :
  singleBlanks b s = true ->
  wordsAfterOptionalBlank (trimEnd s) = true /\
  (b = true -> isNormalized (trimEnd s) = true).
Proof.
  revert b. induction s as [|c s IH]; intros b; [auto|].
  cbn [singleBlanks trimEnd]. destruct (isBlank c) eqn:Hc.
  - rewrite andb_true_iff. intros [Hb H]. destruct b; [discriminate|].
    destruct (IH true H) as [_ Hn]. specialize (Hn eq_refl).
    destruct (blank_facts c Hc) as [_ Hsp].
    destruct (trimEnd s) as [|d r] eqn:E.
    + rewrite Hsp. split; [reflexivity | discriminate].
    + split; [|discriminate]. cbn [wordsAfterOptionalBlank]. rewrite Hc. exact Hn.
  - rewrite andb_true_iff. intros [Hw H].
    destruct (IH false H) as [Hg _].
    destruct (lowerWordChar_facts c Hw) as (Hsp & _).
    assert (Hwords : wordsSeparatedByBlanks
                       match trimEnd s with
                       | EmptyString => if isSpaceChar c then EmptyString
                                        else String c EmptyString
                       | String a r => String c (String a r)
                       end = true).
    { destruct (trimEnd s) as [|d r] eqn:E.
      - rewrite Hsp. cbn. rewrite Hw. reflexivity.
      - cbn [wordsSeparatedByBlanks]. rewrite Hw. cbn [andb].
        cbn [wordsAfterOptionalBlank] in Hg. exact Hg. }
    destruct (trimEnd s) as [|d r] eqn:E.
    + rewrite Hsp in *. split; [|intros _].
      * cbn [wordsAfterOptionalBlank]. rewrite Hc. exact Hwords.
      * exact Hwords.
    + split; [|intros _].
      * cbn [wordsAfterOptionalBlank]. rewrite Hc. exact Hwords.
      * exact Hwords.
Qed.

Lemma normalizeText_isNormalized (text : string) :
  isNormalized (normalizeText text) = true.
Proof.
  unfold normalizeText, trim.
  pose proof (collapse_gives_single_blanks text false) as H.
  apply trimStart_single_blanks in H.
  apply (trimEnd_words true _ H). reflexivity.
Qed.

Lemma words_after_optional_blank s :
  wordsSeparatedByBlanks s = true -> wordsAfterOptionalBlank s = true.
Proof.
  destruct s as [|c s]; [discriminate|]. intros H.
  cbn [wordsAfterOptionalBlank].
  assert (Hw : isLowerWordChar c = true).
  { cbn [wordsSeparatedByBlanks] in H. apply andb_true_iff in H. apply H. }
  destruct (lowerWordChar_facts c Hw) as (_ & -> & _). exact H.
Qed.

Lemma words_tail c s :
  wordsSeparatedByBlanks (String c s) = true ->
  isLowerWordChar c = true /\ wordsAfterOptionalBlank s = true.
Proof.
  cbn [wordsSeparatedByBlanks]. rewrite andb_true_iff. intros [Hw H].
  split; [exact Hw|]. destruct s as [|d s]; [reflexivity|]. exact H.
Qed.

Lemma words_have_single_blanks s :
  wordsAfterOptionalBlank s = true ->
  singleBlanks false s = true /\
  (wordsSeparatedByBlanks s = true -> singleBlanks true s = true).
Proof.
  induction s as [|c s IH]; [auto|].
  cbn [wordsAfterOptionalBlank singleBlanks]. destruct (isBlank c) eqn:Hc.
  - intros H. destruct (IH (words_after_optional_blank s H)) as [_ IH'].
    split; [exact (IH' H)|]. intros H'.
    apply words_tail in H' as [Hw _].
    destruct (lowerWordChar_facts c Hw) as (_ & Hb & _). congruence.
  - intros H. apply words_tail in H as [Hw H]. rewrite Hw.
    destruct (IH H) as [IH' _]. auto.
Qed.

Lemma single_blanks_unchanged b s :
  singleBlanks b s = true ->
  collapseSpaces b s = s /\ removePunctuation s = s /\ toLowerCase s = s.
Proof.
  revert b. induction s as [|c s IH]; intros b; [auto|].
  unfold removePunctuation, toLowerCase in *.
  cbn [singleBlanks collapseSpaces mapString]. destruct (isBlank c) eqn:Hc.
  - rewrite andb_true_iff. intros [Hb H]. destruct b; [discriminate|].
    destruct (blank_facts c Hc) as [-> Hsp].
    destruct space_facts as (_ & -> & -> & ->). cbn [orb].
    destruct (IH true H) as (-> & -> & ->). auto.
  - rewrite andb_true_iff. intros [Hw H].
    destruct (lowerWordChar_facts c Hw) as (-> & _ & -> & ->). cbn [orb].
    destruct (IH false H) as (-> & -> & ->). auto.
Qed.

Lemma trimEnd_unchanged s :
  wordsAfterOptionalBlank s = true -> trimEnd s = s.
Proof.
  induction s as [|c s IH]; [reflexivity|].
  cbn [wordsAfterOptionalBlank trimEnd]. destruct (isBlank c) eqn:Hc.
  - intros H. rewrite (IH (words_after_optional_blank s H)).
    destruct s; [discriminate | reflexivity].
  - intros H. apply words_tail in H as [Hw H]. rewrite (IH H).
    destruct (lowerWordChar_facts c Hw) as (-> & _).
    destruct s; reflexivity.
Qed.

Lemma normalized_is_fixed s : isNormalized s = true -> normalizeText s = s.
Proof.
  destruct s as [|c s]; [reflexivity|]. cbn [isNormalized]. intros H.
  pose proof (words_after_optional_blank _ H) as Hg.
  destruct (words_have_single_blanks _ Hg) as [Hsb _].
  destruct (single_blanks_unchanged _ _ Hsb) as (Hc & Hp & Hl).
  unfold normalizeText, trim. rewrite Hl, Hp, Hc.
  apply words_tail in H as [Hw _].
  destruct (lowerWordChar_facts c Hw) as (Hsp & _).
  cbn [trimStart]. rewrite Hsp. apply trimEnd_unchanged, Hg.
Qed.

Lemma normalizeText_is_lowercase text :
  toLowerCase (normalizeText text) = normalizeText text.
Proof.
  pose proof (normalizeText_isNormalized text) as H.
  destruct (normalizeText text) as [|c r]; [reflexivity|].
  cbn [isNormalized] in H. apply words_after_optional_blank in H.
  apply words_have_single_blanks in H as [H _].
  apply (single_blanks_unchanged _ _ H).
Qed.

(** X5. [normalizeText] returns the empty text or words of a-z, 0-9 and _
    separated by single blanks; these texts are exactly the ones it leaves
    unchanged, so normalizing twice is normalizing once (texts of code
    units 0-255). *)
Theorem normalizeText_normal_form (s text : string) :
  isNormalized (normalizeText text) = true /\
  (normalizeText s = s <-> isNormalized s = true) /\
  normalizeText (normalizeText text) = normalizeText text.
Proof.
  split; [apply normalizeText_isNormalized|]. split.
  - split; [|apply normalized_is_fixed].
    intros <-. apply normalizeText_isNormalized.
  - apply normalized_is_fixed, normalizeText_isNormalized.
Qed.

Lemma lowercase_cons c s :
  toLowerCase (String c s) = String c s -> toLowerChar c = c /\ toLowerCase s = s.
Proof. unfold toLowerCase. cbn [mapString]. intros [= H1 H2]. auto. Qed.

Lemma matchLiteral_prefix keyword s prevIsWord r :
  toLowerCase keyword = keyword -> toLowerCase s = s ->
  matchLiteral keyword s prevIsWord = Some r -> String.prefix keyword s = true.
Proof.
  revert s prevIsWord. induction keyword as [|k keyword IH]; intros s p Hk Hs H.
  - destruct s; reflexivity.
  - destruct s as [|c s]; [discriminate|].
    apply lowercase_cons in Hk as [Hk Hk']. apply lowercase_cons in Hs as [Hc Hs'].
    cbn [matchLiteral] in H.
    destruct (N.eqb_spec (canonicalize k) (canonicalize c)) as [E|]; [|discriminate].
    assert (k = c) as ->.
    { rewrite <- (canonicalize_of_lower k Hk), E. apply canonicalize_of_lower, Hc. }
    cbn [String.prefix]. destruct (ascii_dec c c); [|congruence].
    eapply IH; eassumption.
Qed.

Lemma regexTestFrom_includes keyword s prevIsWord :
  toLowerCase keyword = keyword -> toLowerCase s = s ->
  regexTestFrom keyword prevIsWord s = true -> includes s keyword = true.
Proof.
  intros Hk. revert prevIsWord. induction s as [|c s IH]; intros p Hs.
  - cbn [regexTestFrom includes]. rewrite !orb_false_r, andb_true_iff.
    intros [_ H]. destruct (matchLiteral keyword "" p) eqn:E; [|discriminate].
    eapply matchLiteral_prefix; eassumption.
  - cbn [regexTestFrom includes]. rewrite !orb_true_iff, andb_true_iff.
    intros [[_ H]|H].
    + left. destruct (matchLiteral keyword (String c s) p) eqn:E; [|discriminate].
      eapply matchLiteral_prefix; eassumption.
    + right. apply lowercase_cons in Hs as [_ Hs]. eapply IH; eassumption.
Qed.

(** X6. On a normalized text the word-boundary regular expression never
    hits where the substring check does not: for every lower-case keyword,
    and all keywords of the catalog are lower-case, the test of the loop
    equals [normalizedText.includes(keyword)]. *)
Theorem word_boundary_test_adds_no_hit (text : string) :
  (forall keyword, toLowerCase keyword = keyword ->
     keywordHit (normalizeText text) keyword =
     includes (normalizeText text) keyword) /\
  Forall (fun p => toLowerCase (snd p) = snd p) (keywordPairs EXPLICIT_KEYWORDS) /\
  matchingPairs EXPLICIT_KEYWORDS (normalizeText text) =
    List.filter (fun p => includes (normalizeText text) (snd p))
      (keywordPairs EXPLICIT_KEYWORDS).
Proof.
  assert (Hhit : forall keyword, toLowerCase keyword = keyword ->
     keywordHit (normalizeText text) keyword =
     includes (normalizeText text) keyword).
  { intros keyword Hk. unfold keywordHit, regexTest.
    destruct (regexTestFrom keyword false (normalizeText text)) eqn:E;
      [|reflexivity].
    symmetry. eapply regexTestFrom_includes; [exact Hk | | exact E].
    apply normalizeText_is_lowercase. }
  assert (Hlower : Forall (fun p => toLowerCase (snd p) = snd p)
                     (keywordPairs EXPLICIT_KEYWORDS)).
  { apply List.Forall_forall. intros p Hp.
    apply String.eqb_eq.
    revert p Hp. apply forallb_forall. vm_compute. reflexivity. }
  split; [exact Hhit|]. split; [exact Hlower|].
  unfold matchingPairs.
  induction Hlower as [|p ps Hp _ IH]; [reflexivity|].
  cbn [List.filter]. rewrite (Hhit _ Hp), IH. reflexivity.
Qed.

End NormalizeFacts.

(** ** The outcome of the text classifier *)

Section ClassifierFacts.

Import JS.

Lemma dedupe_spec xs :
  NoDup (dedupe xs) /\ forall x, x ∈ dedupe xs <-> x ∈ xs.
Proof.
  destruct (fold_setAdd_spec xs [] (@NoDup_nil_2 string)) as [Hnd Hin].
  split; [exact Hnd|]. intros x. unfold dedupe. rewrite Hin, elem_of_nil. tauto.
Qed.

Lemma dedupe_nil xs : dedupe xs = [] <-> xs = [].
Proof.
  destruct (dedupe_spec xs) as [_ Hin]. split.
  - intros E. destruct xs as [|x xs]; [reflexivity|].
    specialize (Hin x). rewrite E in Hin.
    exfalso. eapply not_elem_of_nil, Hin. left.
  - intros ->. reflexivity.
Qed.

(** The fields of the classifier's result, in terms of the matching
    (category, keyword) pairs. *)
Lemma analyzeImageText_fields text :
  let hits := matchingPairs EXPLICIT_KEYWORDS (normalizeText (trim text)) in
  let confidence :=
    Math_min (Number (Z.of_nat (length hits)) * 0.3)%float 1%float in
  analyzeImageText (Recognized (Some text)) =
  {| TextAnalysisResult.hasExplicitText :=
       (0 <? length (dedupe (map snd hits)))%nat && gt confidence 0.3%float;
     TextAnalysisResult.confidence := confidence;
     TextAnalysisResult.detectedWords := dedupe (map snd hits);
     TextAnalysisResult.categories := dedupe (map fst hits);
     TextAnalysisResult.extractedText := trim text |}.
Proof.
  cbn zeta. unfold analyzeImageText.
  destruct (String.eqb_spec (trim text) "") as [E|E].
  - rewrite E. vm_compute. reflexivity.
  - unfold analyzeTextContent.
    cbn [TextContent.confidence TextContent.detectedWords TextContent.categories].
    destruct (scanKeywords_spec (normalizeText (trim text))) as (H1 & H2 & H3).
    cbn zeta in H1, H2, H3. rewrite H1, H2, H3. reflexivity.
Qed.

Lemma confidence_table n :
  (n <= 83)%nat ->
  Math_min (Number (Z.of_nat n) * 0.3)%float 1%float = confidenceOfMatches n /\
  gt (Math_min (Number (Z.of_nat n) * 0.3)%float 1%float) 0.3%float = (2 <=? n)%nat.
Proof.
  intros Hn.
  do 84 (destruct n as [|n]; [vm_compute; split; reflexivity|]).
  lia.
Qed.

Lemma totalMatchCount_bound text : (totalMatchCount text <= 83)%nat.
Proof.
  unfold totalMatchCount, matchingPairs.
  etransitivity; [apply List.filter_length_le|].
  vm_compute. reflexivity.
Qed.

(** X7. The confidence of a text analysis depends only on the number n of
    (category, keyword) pairs that hit: 0, 0.3, 0.6 and 0.8999999999999999
    for n = 0, 1, 2, 3 and 1 from n = 4 on, where n is at most 83;
    hasExplicitText holds exactly when n is at least 2; extractedText is
    the trimmed OCR text. *)
Theorem confidence_is_determined_by_match_count (text : string) :
  let r := analyzeImageText (Recognized (Some text)) in
  let n := totalMatchCount (normalizeText (trim text)) in
  (n <= 83)%nat /\
  TextAnalysisResult.confidence r = confidenceOfMatches n /\
  TextAnalysisResult.hasExplicitText r = (2 <=? n)%nat /\
  TextAnalysisResult.extractedText r = trim text.
Proof.
  cbn zeta. rewrite analyzeImageText_fields.
  cbn [TextAnalysisResult.confidence TextAnalysisResult.hasExplicitText
       TextAnalysisResult.extractedText].
  pose proof (totalMatchCount_bound (normalizeText (trim text))) as Hn.
  destruct (confidence_table _ Hn) as [Hc Hg].
  fold (totalMatchCount (normalizeText (trim text))).
  split; [exact Hn|]. split; [exact Hc|]. split; [|reflexivity].
  rewrite Hg.
  destruct (matchingPairs EXPLICIT_KEYWORDS (normalizeText (trim text)))
    as [|p hits] eqn:E.
  - unfold totalMatchCount. rewrite E. reflexivity.
  - destruct (dedupe (map snd (p :: hits))) as [|w ws] eqn:Ed.
    + apply (proj1 (dedupe_nil _)) in Ed. discriminate Ed.
    + reflexivity.
Qed.

(** Which words and categories the two nested loops report, for any
    catalog. *)
Lemma reported_words_and_categories
    (catalog : list (string * list string)) (nt : string) :
  let hits := matchingPairs catalog nt in
  (forall w, w ∈ dedupe (map snd hits) <->
     keywordHit nt w = true /\ exists c, In (c, w) (keywordPairs catalog)) /\
  (forall c, c ∈ dedupe (map fst hits) <->
     exists w, In (c, w) (keywordPairs catalog) /\ keywordHit nt w = true).
Proof.
  cbn zeta.
  assert (Hhits : forall c w, In (c, w) (matchingPairs catalog nt) <->
            In (c, w) (keywordPairs catalog) /\ keywordHit nt w = true).
  { intros c w. unfold matchingPairs. rewrite filter_In. reflexivity. }
  generalize dependent (matchingPairs catalog nt). intros hits Hhits.
  generalize dependent (keywordPairs catalog). intros pairs Hhits.
  destruct (dedupe_spec (map snd hits)) as [_ Hin1].
  destruct (dedupe_spec (map fst hits)) as [_ Hin2].
  split.
  - intros w. rewrite Hin1, list_elem_of_In, in_map_iff. split.
    + intros ([c w'] & <- & Hp). apply (proj1 (Hhits _ _)) in Hp as [Hp Hh].
      cbn [snd]. eauto.
    + intros (Hh & c & Hp). exists (c, w). split; [reflexivity|].
      apply (proj2 (Hhits _ _)). auto.
  - intros c. rewrite Hin2, list_elem_of_In, in_map_iff. split.
    + intros ([c' w] & <- & Hp). exists w. apply (proj1 (Hhits _ _)), Hp.
    + intros (w & Hp). exists (c, w). split; [reflexivity|].
      apply (proj2 (Hhits _ _)), Hp.
Qed.

Lemma catalog_categories c w :
  In (c, w) (keywordPairs EXPLICIT_KEYWORDS) -> c ∈ categoryNames.
Proof.
  intros Hp.
  assert (Hall : forallb (fun p => existsb (String.eqb (fst p)) categoryNames)
                   (keywordPairs EXPLICIT_KEYWORDS) = true)
    by (vm_compute; reflexivity).
  rewrite forallb_forall in Hall. specialize (Hall _ Hp).
  apply existsb_exists in Hall as (name & Hname & E).
  apply String.eqb_eq in E. cbn [fst] in E. subst name.
  apply list_elem_of_In, Hname.
Qed.

(** X8. [detectedWords] and [categories] hold no duplicates; a word is
    detected exactly when it is a catalog keyword that hits the normalized
    text; a category is reported exactly when one of its keywords hits;
    every reported category is one of the five catalog names;
    detectedWords is empty exactly when categories is, and exactly when
    nothing matched. *)
Theorem detected_words_and_categories (text : string) :
  let r := analyzeImageText (Recognized (Some text)) in
  let normalizedText := normalizeText (trim text) in
  NoDup (TextAnalysisResult.detectedWords r) /\
  NoDup (TextAnalysisResult.categories r) /\
  (forall w, w ∈ TextAnalysisResult.detectedWords r <->
     keywordHit normalizedText w = true /\
     exists c, In (c, w) (keywordPairs EXPLICIT_KEYWORDS)) /\
  (forall c, c ∈ TextAnalysisResult.categories r <->
     exists w, In (c, w) (keywordPairs EXPLICIT_KEYWORDS) /\
               keywordHit normalizedText w = true) /\
  (forall c, c ∈ TextAnalysisResult.categories r -> c ∈ categoryNames) /\
  (TextAnalysisResult.detectedWords r = [] <->
   TextAnalysisResult.categories r = []) /\
  (TextAnalysisResult.detectedWords r = [] <->
   totalMatchCount normalizedText = 0%nat).
Proof.
  cbn zeta. rewrite analyzeImageText_fields.
  cbn [TextAnalysisResult.detectedWords TextAnalysisResult.categories].
  destruct (reported_words_and_categories EXPLICIT_KEYWORDS
              (normalizeText (trim text))) as [Hwords Hcats].
  cbn zeta in Hwords, Hcats. unfold totalMatchCount.
  generalize dependent (matchingPairs EXPLICIT_KEYWORDS (normalizeText (trim text))).
  intros hits Hwords Hcats.
  destruct (dedupe_spec (map snd hits)) as [Hnd1 _].
  destruct (dedupe_spec (map fst hits)) as [Hnd2 _].
  split; [exact Hnd1|]. split; [exact Hnd2|].
  split; [exact Hwords|]. split; [exact Hcats|]. split; [|split].
  - intros c Hc. apply (proj1 (Hcats c)) in Hc as (w & Hp & _).
    exact (catalog_categories c w Hp).
  - rewrite !dedupe_nil. destruct hits; split; intros H; try reflexivity;
      discriminate H.
  - rewrite dedupe_nil. destruct hits; split; intros H; try reflexivity;
      discriminate H.
Qed.

Lemma trimStart_spaces s : allSpaces s = true -> trimStart s = EmptyString.
Proof.
  induction s as [|c s IH]; [reflexivity|].
  cbn [allSpaces trimStart]. rewrite andb_true_iff. intros [-> H]. auto.
Qed.

Lemma trim_nonblank s : allSpaces s = false -> trim s <> EmptyString.
Proof.
  unfold trim. induction s as [|c s IH]; [discriminate|].
  cbn [allSpaces trimStart]. destruct (isSpaceChar c) eqn:Hc.
  - cbn [andb]. exact IH.
  - intros _. cbn [trimEnd]. rewrite Hc. destruct (trimEnd s); discriminate.
Qed.

(** X9. [analyzeImageText] returns the empty analysis when OCR fails or
    yields no text, and for a recognized text exactly when the text
    consists of white space only. *)
Theorem empty_analysis_exactly_for_blank_text (text : string) :
  (analyzeImageText (Recognized (Some text)) = emptyTextAnalysis <->
   allSpaces text = true) /\
  analyzeImageText (Recognized None) = emptyTextAnalysis /\
  analyzeImageText RecognizeFailed = emptyTextAnalysis.
Proof.
  split; [|split; reflexivity]. split.
  - intros H. destruct (allSpaces text) eqn:E; [reflexivity|].
    exfalso. apply (trim_nonblank _ E).
    unfold analyzeImageText in H.
    destruct (String.eqb_spec (trim text) "") as [Ht|Ht]; [exact Ht|].
    apply (f_equal TextAnalysisResult.extractedText) in H. exact H.
  - intros H. unfold analyzeImageText, trim.
    rewrite (trimStart_spaces _ H). reflexivity.
Qed.

End ClassifierFacts.

(** ** The verdict of the skin classifier *)

Section SkinMore.

Import JS.
Local Open Scope float_scope.

Lemma ltb_trans x y z : (x <? y) = true -> (y <? z) = true -> (x <? z) = true.
Proof.
  rewrite !ltb_place.
  intros (a & b & Ha & Hb & Hab) (b' & c & Hb' & Hc & Hbc).
  rewrite Hb in Hb'. simplify_eq. exists a, c.
  split; [assumption|]. split; [assumption|].
  unfold before in *. lia.
Qed.

Lemma ltb_leb_trans x y z : (x <? y) = true -> (y <=? z) = true -> (x <? z) = true.
Proof.
  rewrite !ltb_place, leb_place.
  intros (a & b & Ha & Hb & Hab) (b' & c & Hb' & Hc & Hbc).
  rewrite Hb in Hb'. simplify_eq. exists a, c.
  split; [assumption|]. split; [assumption|].
  unfold before in *. destruct Hbc as [Hbc| ->]; [lia | assumption].
Qed.

(** The thresholds are nested: a percentage above one is above the lower
    ones. *)
Lemma gt_thresholds p :
  (gt p 40 = true -> gt p 35 = true) /\
  (gt p 35 = true -> gt p 30 = true) /\
  (gt p 30 = true -> gt p 25 = true) /\
  (gt p 25 = true -> gt p 20 = true) /\
  (gt p 20 = true -> gt p 15 = true).
Proof.
  unfold gt. repeat split; apply ltb_trans; vm_compute; reflexivity.
Qed.

Lemma verdict_fields st :
  verdict st =
  {| ImageAnalysisResult.isExplicit :=
       gt (rawPercentage st) 35 || (gt (rawPercentage st) 25 && largeRegions st);
     ImageAnalysisResult.skinPercentage := round2 (rawPercentage st);
     ImageAnalysisResult.confidence :=
       round2 (Math_min
                 (if largeRegions st
                  then confidenceTier (rawPercentage st) + 0.2
                  else confidenceTier (rawPercentage st)) 1) |}.
Proof. reflexivity. Qed.

Ltac thresholds p :=
  let H := fresh in
  pose proof (gt_thresholds p) as H;
  destruct H as (?H40 & ?H35 & ?H30 & ?H25 & ?H20);
  destruct (gt p 40), (gt p 35), (gt p 30), (gt p 25), (gt p 20);
  try (discriminate (H40 eq_refl)); try (discriminate (H35 eq_refl));
  try (discriminate (H30 eq_refl)); try (discriminate (H25 eq_refl));
  try (discriminate (H20 eq_refl)).

(** X10. For a verdict of the skin classifier, the condition under which
    [analyzeImageFast] skips OCR (isExplicit and confidence above 0.7)
    holds exactly when the unrounded skin percentage is above 40, or above
    30 with large skin regions; above 40 the result is explicit and
    carries the empty text analysis, and when the percentage is not above
    30 the text analysis is the one OCR gives (the empty one when it is
    rejected). *)
Theorem short_circuit_fires_above_40_or_above_30_with_large_regions
    (st : ScanState) (url : string)
    (textAnalysisOf : string -> Settled TextAnalysisResult.t) :
  let r := verdict st in
  let p := rawPercentage st in
  let run := analyzeUncached (fun _ => Resolved r) textAnalysisOf url in
  (ImageAnalysisResult.isExplicit r &&
   gt (ImageAnalysisResult.confidence r) 0.7) =
    (gt p 40 || (gt p 30 && largeRegions st)) /\
  (gt p 40 = true ->
   ImageAnalysisDetail.textAnalysis (fst run) = Some emptyTextAnalysis /\
   ImageAnalysisDetail.isExplicit (fst run) = true) /\
  (gt p 30 = false ->
   ImageAnalysisDetail.textAnalysis (fst run) =
     Some match textAnalysisOf url with
          | Resolved t => t
          | Rejected => emptyTextAnalysis
          end).
Proof.
  cbn zeta.
  assert (Hgate :
    (ImageAnalysisResult.isExplicit (verdict st) &&
     gt (ImageAnalysisResult.confidence (verdict st)) 0.7) =
    (gt (rawPercentage st) 40 || (gt (rawPercentage st) 30 && largeRegions st))).
  { rewrite verdict_fields.
    cbn [ImageAnalysisResult.isExplicit ImageAnalysisResult.confidence].
    unfold confidenceTier.
    generalize (rawPercentage st) (largeRegions st). intros p large.
    thresholds p; destruct large; vm_compute; reflexivity. }
  split; [exact Hgate|].
  unfold analyzeUncached. rewrite Hgate. split.
  - intros ->. cbn. auto.
  - intros H30.
    destruct (gt_thresholds (rawPercentage st)) as (H40 & H35 & _).
    destruct (gt (rawPercentage st) 40) eqn:E40.
    + specialize (H35 (H40 eq_refl)). congruence.
    + rewrite H30. cbn. reflexivity.
Qed.

(** X11. Whenever the skin classifier returns isExplicit = true, its
    confidence is 0.7, 0.9 or 1, hence at least 0.7. *)
Theorem explicit_verdict_has_confidence_at_least_0_7
    (decoded : option RawImage) (r : ImageAnalysisResult.t) :
  analyzeImageForExplicitContent decoded = Some r ->
  ImageAnalysisResult.isExplicit r = true ->
  (0.7 <=? ImageAnalysisResult.confidence r) = true /\
  (ImageAnalysisResult.confidence r = 0.7 \/
   ImageAnalysisResult.confidence r = 0.9 \/
   ImageAnalysisResult.confidence r = 1).
Proof.
  unfold analyzeImageForExplicitContent.
  destruct decoded as [img|]; [|intros [= <-]; discriminate].
  destruct (scan img) as [st|]; [|discriminate].
  intros [= <-]. rewrite verdict_fields.
  cbn [ImageAnalysisResult.isExplicit ImageAnalysisResult.confidence].
  unfold confidenceTier.
  generalize (rawPercentage st) (largeRegions st). intros p large.
  thresholds p; destruct large; try discriminate; intros _;
    vm_compute; auto.
Qed.

Lemma explicit_verdict_has_confidence_at_least_0_7_witness :
  exists r, analyzeImageForExplicitContent (Some twoPixels) = Some r /\
            (0.7 <=? ImageAnalysisResult.confidence r) = true.
Proof.
  exists (verdict {| skinPixels := 1; totalPixels := 1;
                     skinRegions := [ {| x := 0; y := 0 |} ] |}).
  split; [vm_compute; reflexivity|].
  exact (proj1 (explicit_verdict_has_confidence_at_least_0_7 (Some twoPixels) _
                  ltac:(vm_compute; reflexivity) ltac:(vm_compute; reflexivity))).
Defined.

Lemma gt_monotone p q k :
  (p <=? q) = true -> gt p k = true -> gt q k = true.
Proof. unfold gt. intros Hpq Hk. eapply ltb_leb_trans; eassumption. Qed.

(** X12. Between two scans with the same hasLargeSkinRegions, the one with
    the larger unrounded skin percentage never gets the smaller
    confidence. *)
Theorem confidence_is_monotone_in_percentage (st1 st2 : ScanState) :
  largeRegions st1 = largeRegions st2 ->
  (rawPercentage st1 <=? rawPercentage st2) = true ->
  (ImageAnalysisResult.confidence (verdict st1) <=?
   ImageAnalysisResult.confidence (verdict st2)) = true.
Proof.
  intros Hlarge Hle. rewrite !verdict_fields.
  cbn [ImageAnalysisResult.confidence]. rewrite Hlarge.
  unfold confidenceTier.
  pose proof (gt_monotone _ _ 40 Hle) as M40.
  pose proof (gt_monotone _ _ 30 Hle) as M30.
  pose proof (gt_monotone _ _ 20 Hle) as M20.
  clear Hle Hlarge.
  generalize dependent (rawPercentage st1). intros p1.
  generalize dependent (rawPercentage st2). intros p2.
  generalize (largeRegions st2). intros large M40 M30 M20.
  pose proof (gt_thresholds p1) as (A40 & A35 & A30 & A25 & _).
  pose proof (gt_thresholds p2) as (B40 & B35 & B30 & B25 & _).
  destruct (gt p1 40), (gt p1 30), (gt p1 20), (gt p2 40), (gt p2 30), (gt p2 20);
    try (discriminate (M40 eq_refl)); try (discriminate (M30 eq_refl));
    try (discriminate (M20 eq_refl));
    destruct large; vm_compute; reflexivity.
Qed.

Lemma confidence_is_monotone_in_percentage_witness :
  (ImageAnalysisResult.confidence
     (verdict {| skinPixels := 21; totalPixels := 100; skinRegions := [] |}) <=?
   ImageAnalysisResult.confidence
     (verdict {| skinPixels := 41; totalPixels := 100; skinRegions := [] |})) = true.
Proof.
  apply confidence_is_monotone_in_percentage; vm_compute; reflexivity.
Defined.

Lemma scanLoop_regions img fuel :
  (1 <= width img)%nat -> (1 <= channels img)%nat ->
  length (data img) = (width img * height img * channels img)%nat ->
  forall i st st',
    Forall (insideImage img) (skinRegions st) ->
    scanLoop fuel (data img) (width img) (channels img) i st = Some st' ->
    Forall (insideImage img) (skinRegions st').
Proof.
  intros Hw Hc Hlen.
  induction fuel as [|fuel IH]; intros i st st' Hst; [discriminate|].
  rewrite scanLoop_unfold.
  destruct (Nat.ltb_spec i (length (data img))) as [Hi|Hi];
    [|intros [= <-]; exact Hst].
  cbv zeta.
  set (st1 := if isSkinSample _ _ _ then _ else _).
  assert (Hst1 : Forall (insideImage img) (skinRegions st1)).
  { subst st1. destruct (isSkinSample _ _ _); [|exact Hst].
    cbn [skinRegions]. apply Forall_app. split; [exact Hst|].
    constructor; [|constructor]. unfold insideImage. cbn [x y]. split.
    - apply Nat.mod_upper_bound. lia.
    - apply Nat.Div0.div_lt_upper_bound. apply Nat.Div0.div_lt_upper_bound.
      rewrite Hlen in Hi. lia. }
  destruct (earlyExit (skinPixels st1) (totalPixels st1)).
  - intros [= <-]. exact Hst1.
  - apply IH. exact Hst1.
Qed.

Lemma skinAmong_le img k : (skinAmong img k <= k)%nat.
Proof.
  induction k as [|k IH]; [reflexivity|].
  simpl. destruct (sampleIsSkin img k); lia.
Qed.

(** X14. For an image with width and channels at least 1 and width x
    height x channels data bytes, a completed scan has skinPixels at most
    totalPixels, one recorded coordinate per skin pixel, no more samples
    than strides of channels x 8 bytes fit in the data, and every recorded
    coordinate inside the image. *)
Theorem scan_counts_are_consistent (img : RawImage) (st : ScanState) :
  scan img = Some st ->
  (1 <= width img)%nat -> (1 <= channels img)%nat ->
  length (data img) = (width img * height img * channels img)%nat ->
  (skinPixels st <= totalPixels st)%nat /\
  length (skinRegions st) = skinPixels st /\
  (totalPixels st * (channels img * 8) < length (data img) + channels img * 8)%nat /\
  Forall (insideImage img) (skinRegions st).
Proof.
  intros Hscan Hw Hc Hlen.
  destruct (scan_terminates img Hc) as (st' & Hscan' & Hpost).
  rewrite Hscan in Hscan'. injection Hscan' as <-.
  destruct Hpost as (Hs & Hr & _ & Hin & _).
  split; [rewrite Hs; apply skinAmong_le|]. split; [exact Hr|]. split.
  - destruct (totalPixels st) as [|t]; [lia|].
    specialize (Hin t ltac:(lia)). unfold sampleOffset in Hin. lia.
  - eapply scanLoop_regions; try eassumption. constructor.
Qed.

Lemma scan_counts_are_consistent_witness :
  exists st, scan twoPixels = Some st /\
             (skinPixels st <= totalPixels st)%nat /\
             Forall (insideImage twoPixels) (skinRegions st).
Proof.
  eexists. split; [vm_compute; reflexivity|].
  pose proof (scan_counts_are_consistent twoPixels _
                ltac:(vm_compute; reflexivity)
                ltac:(vm_compute; lia) ltac:(vm_compute; lia)
                ltac:(vm_compute; reflexivity)) as (H1 & _ & _ & H2).
  split; [exact H1 | exact H2].
Defined.

(** X15. The skin classifier answers on every decode outcome: a failed
    fetch or decode gives isExplicit false with percentage 0 and
    confidence 0; with at least one channel the sampling loop terminates
    and a verdict is returned; an image without pixel data gives
    isExplicit false, percentage 0 and confidence 0.3. *)
Theorem classifier_answers_every_decode_outcome :
  analyzeImageForExplicitContent None =
    Some {| ImageAnalysisResult.isExplicit := false;
            ImageAnalysisResult.skinPercentage := 0;
            ImageAnalysisResult.confidence := 0 |} /\
  (forall img, (1 <= channels img)%nat ->
     exists r, analyzeImageForExplicitContent (Some img) = Some r) /\
  (forall img, data img = [] ->
     analyzeImageForExplicitContent (Some img) =
       Some {| ImageAnalysisResult.isExplicit := false;
               ImageAnalysisResult.skinPercentage := 0;
               ImageAnalysisResult.confidence := 0.3 |}).
Proof.
  split; [reflexivity|]. split.
  - intros img Hc. destruct (scan_terminates img Hc) as (st & Hscan & _).
    exists (verdict st). unfold analyzeImageForExplicitContent.
    rewrite Hscan. reflexivity.
  - intros [d w h c] Hd. cbn [data] in Hd. subst d.
    vm_compute. reflexivity.
Qed.

End SkinMore.

(** ** Cache hits and misses of the single-image orchestrator *)

Section OrchestratorFacts.

Import JS.

Variable clock : nat -> Z.
Variable skinAnalysisOf : string -> Settled ImageAnalysisResult.t.
Variable textAnalysisOf : string -> Settled TextAnalysisResult.t.

Lemma analyzeUncached_ttl u :
  snd (analyzeUncached skinAnalysisOf textAnalysisOf u) = 300%Z \/
  snd (analyzeUncached skinAnalysisOf textAnalysisOf u) = 60%Z.
Proof.
  unfold analyzeUncached.
  destruct (skinAnalysisOf u) as [skin|]; [|right; reflexivity].
  destruct (_ && _); left; reflexivity.
Qed.

Lemma setBatchCache_spec key value ttl w :
  setBatchCache clock key value ttl w =
  {| imageCache := imageCache w;
     batchCache :=
       <[key := {| entryData := value;
                   expiry := (clock (ticks w) + ttl * 1000)%Z |}]> (batchCache w);
     ticks := S (ticks w) |}.
Proof. reflexivity. Qed.

Lemma miss_world url w :
  fst (startAnalysis clock url w) = None ->
  let w1 := snd (startAnalysis clock url w) in
  snd (analyzeImageFast clock skinAnalysisOf textAnalysisOf url w) =
  {| imageCache :=
       <[imageCacheKey url :=
           {| entryData := fst (analyzeUncached skinAnalysisOf textAnalysisOf url);
              expiry := (clock (ticks w1) +
                         snd (analyzeUncached skinAnalysisOf textAnalysisOf url) * 1000)%Z |}]>
         (imageCache w1);
     batchCache := batchCache w1;
     ticks := S (ticks w1) |}.
Proof.
  intros Hmiss. cbn zeta.
  rewrite (analyzeImageFast_miss clock skinAnalysisOf textAnalysisOf url w Hmiss).
  rewrite finishAnalysis_spec. cbn [snd]. apply setImageCache_spec.
Qed.

End OrchestratorFacts.

Section SingleImageMore.

Variable clock : nat -> Z.
Variable skinAnalysisOf : string -> Settled ImageAnalysisResult.t.
Variable textAnalysisOf : string -> Settled TextAnalysisResult.t.

Local Open Scope Z_scope.

(** X16. After a cache miss, a second [analyzeImageFast] of the same URL
    whose clock reading is within 60 seconds of the reading made by the
    cache write returns the first result whatever the collaborators would
    answer now, and leaves both caches as they are. *)
Theorem repeated_analysis_is_served_from_cache
    (laterSkinAnalysisOf : string -> Settled ImageAnalysisResult.t)
    (laterTextAnalysisOf : string -> Settled TextAnalysisResult.t)
    (url : string) (w : World) :
  fst (startAnalysis clock url w) = None ->
  let first := analyzeImageFast clock skinAnalysisOf textAnalysisOf url w in
  let written := clock (Nat.pred (ticks (snd first))) in
  clock (ticks (snd first)) <= written + 60 * 1000 ->
  let second :=
    analyzeImageFast clock laterSkinAnalysisOf laterTextAnalysisOf url (snd first) in
  fst second = fst first /\
  imageCache (snd second) = imageCache (snd first) /\
  batchCache (snd second) = batchCache (snd first) /\
  ticks (snd second) = S (ticks (snd first)).
Proof.
  intros Hmiss. cbn zeta.
  pose proof (miss_caches_result clock skinAnalysisOf textAnalysisOf url w Hmiss)
    as (_ & Hentry & Hnext).
  cbn zeta in Hentry, Hnext.
  pose proof (miss_world clock skinAnalysisOf textAnalysisOf url w Hmiss) as Hw.
  cbn zeta in Hw.
  set (first := analyzeImageFast clock skinAnalysisOf textAnalysisOf url w) in *.
  set (w1 := snd (startAnalysis clock url w)) in *.
  assert (Hticks : ticks (snd first) = S (ticks w1)) by (rewrite Hw; reflexivity).
  rewrite Hticks. cbn [Nat.pred]. intros Hlive.
  assert (Hhit : fst (startAnalysis clock url (snd first)) = Some (fst first)).
  { rewrite Hnext, Hticks.
    destruct (Z.gtb_spec (clock (S (ticks w1)))
                (clock (ticks w1) +
                 snd (analyzeUncached skinAnalysisOf textAnalysisOf url) * 1000));
      [|reflexivity].
    destruct (analyzeUncached_ttl skinAnalysisOf textAnalysisOf url) as [E|E];
      rewrite E in *; lia. }
  rewrite (analyzeImageFast_hit clock laterSkinAnalysisOf laterTextAnalysisOf
             url (snd first) (fst first) Hhit).
  cbn [fst snd]. split; [reflexivity|].
  rewrite startAnalysis_spec in Hhit |- *. rewrite Hentry in Hhit |- *.
  cbn [expiry entryData] in Hhit |- *.
  destruct (_ >? _); [discriminate Hhit|].
  cbn [snd imageCache batchCache ticks]. rewrite Hticks. auto.
Qed.

(** X17. An image-cache entry whose expiry has passed is never served: the
    URL is analysed again, the new result is returned and replaces the
    entry with an expiry counted from the second clock reading; other
    entries and the batch cache are untouched. *)
Theorem expired_entry_is_replaced_by_fresh_analysis
    (url : string) (w : World) (entry : CacheEntry ImageAnalysisDetail.t) :
  imageCache w !! imageCacheKey url = Some entry ->
  clock (ticks w) > expiry entry ->
  let run := analyzeImageFast clock skinAnalysisOf textAnalysisOf url w in
  let fresh := analyzeUncached skinAnalysisOf textAnalysisOf url in
  fst run = fst fresh /\
  imageCache (snd run) !! imageCacheKey url =
    Some {| entryData := fst fresh;
            expiry := clock (S (ticks w)) + snd fresh * 1000 |} /\
  (forall other, other <> imageCacheKey url ->
     imageCache (snd run) !! other = imageCache w !! other) /\
  batchCache (snd run) = batchCache w /\
  ticks (snd run) = S (S (ticks w)).
Proof.
  intros Hentry Hdead. cbn zeta.
  assert (Hstart : startAnalysis clock url w =
            (None, {| imageCache := delete (imageCacheKey url) (imageCache w);
                      batchCache := batchCache w;
                      ticks := S (ticks w) |})).
  { rewrite startAnalysis_spec, Hentry.
    destruct (Z.gtb_spec (clock (ticks w)) (expiry entry)); [reflexivity | lia]. }
  assert (Hmiss : fst (startAnalysis clock url w) = None) by (rewrite Hstart; reflexivity).
  pose proof (miss_caches_result clock skinAnalysisOf textAnalysisOf url w Hmiss)
    as (Hfst & _).
  pose proof (miss_world clock skinAnalysisOf textAnalysisOf url w Hmiss) as Hw.
  cbn zeta in Hfst, Hw. rewrite Hstart in Hw. cbn [snd imageCache batchCache ticks] in Hw.
  rewrite Hw. cbn [imageCache batchCache ticks].
  split; [exact Hfst|]. split; [apply lookup_insert_eq|].
  split; [|auto].
  intros other Hne.
  rewrite lookup_insert_ne by congruence.
  apply lookup_delete_ne. congruence.
Qed.

End SingleImageMore.

Lemma repeated_analysis_is_served_from_cache_witness :
  let first :=
    analyzeImageFast frozenClock (fun _ => Resolved mildSkin) (fun _ => Rejected)
      "a" emptyWorld in
  fst (analyzeImageFast frozenClock (fun _ => Rejected)
         (fun _ => Resolved explicitCaption) "a" (snd first)) = fst first.
Proof.
  intros first.
  refine (proj1 (repeated_analysis_is_served_from_cache frozenClock
            (fun _ => Resolved mildSkin) (fun _ => Rejected)
            (fun _ => Rejected) (fun _ => Resolved explicitCaption)
            "a" emptyWorld _ _)).
  - reflexivity.
  - unfold frozenClock. lia.
Defined.

Lemma expired_entry_is_replaced_by_fresh_analysis_witness :
  let stale := fst (analyzeUncached (fun _ => Resolved strongSkin) (fun _ => Rejected) "a") in
  let run :=
    analyzeImageFast frozenClock (fun _ => Resolved mildSkin) (fun _ => Rejected)
      "a" staleWorld in
  imageCache staleWorld !! imageCacheKey "a" = Some {| entryData := stale; expiry := 0 |} /\
  fst run = fst (analyzeUncached (fun _ => Resolved mildSkin) (fun _ => Rejected) "a").
Proof.
  intros stale run.
  assert (H : imageCache staleWorld !! imageCacheKey "a" =
              Some {| entryData := stale; expiry := 0 |}) by apply lookup_singleton_eq.
  split; [exact H|].
  refine (proj1 (expired_entry_is_replaced_by_fresh_analysis frozenClock
            (fun _ => Resolved mildSkin) (fun _ => Rejected) "a" staleWorld _ H _)).
  unfold frozenClock. cbn [expiry ticks staleWorld]. lia.
Defined.

(** ** Cache keys, cache states and the batch orchestrator *)

Section KeyFacts.

Lemma append_nil (s : string) : "" +:+ s = s.
Proof. reflexivity. Qed.

Lemma append_cons c (s r : string) : String c s +:+ r = String c (s +:+ r).
Proof. reflexivity. Qed.

Lemma commaFree_no_separator s s' r :
  commaFree s = true -> s <> s' +:+ String "," r.
Proof.
  revert s. induction s' as [|c s' IH]; intros s Hs E.
  - rewrite append_nil in E. subst s. simpl in Hs. discriminate.
  - destruct s as [|d s]; [discriminate|].
    rewrite append_cons in E. injection E as -> E.
    simpl in Hs. apply andb_true_iff in Hs as [_ Hs].
    exact (IH s Hs E).
Qed.

Lemma commaFree_split s s' r r' :
  commaFree s = true -> commaFree s' = true ->
  s +:+ String "," r = s' +:+ String "," r' -> s = s' /\ r = r'.
Proof.
  revert s'. induction s as [|c s IH]; intros [|c' s'] Hs Hs' E;
    rewrite ?append_nil, ?append_cons in E.
  - injection E as ->. auto.
  - injection E as <- _. simpl in Hs'. discriminate.
  - injection E as -> _. simpl in Hs. discriminate.
  - injection E as -> E.
    simpl in Hs, Hs'.
    apply andb_true_iff in Hs as [_ Hs]. apply andb_true_iff in Hs' as [_ Hs'].
    destruct (IH s' Hs Hs' E) as [-> ->]. auto.
Qed.

Lemma join_cons2 s t rest :
  join "," (s :: t :: rest) = s +:+ String "," (join "," (t :: rest)).
Proof. reflexivity. Qed.

Lemma join_comma_inj us vs :
  us <> [] -> vs <> [] ->
  Forall (fun u => commaFree u = true) us ->
  Forall (fun u => commaFree u = true) vs ->
  join "," us = join "," vs -> us = vs.
Proof.
  intros Hus Hvs Hcu. revert vs Hvs.
  induction Hcu as [|u us Hu Hcu IH]; [congruence|].
  intros vs Hvs Hcv E. destruct Hcv as [|v vs Hv Hcv]; [congruence|].
  destruct us as [|u' us], vs as [|v' vs].
  - simpl in E. congruence.
  - rewrite join_cons2 in E. change (join "," [u]) with u in E.
    exfalso. exact (commaFree_no_separator _ _ _ Hu E).
  - rewrite join_cons2 in E. change (join "," [v]) with v in E.
    exfalso. symmetry in E. exact (commaFree_no_separator _ _ _ Hv E).
  - rewrite !join_cons2 in E.
    destruct (commaFree_split _ _ _ _ Hu Hv E) as [-> E'].
    f_equal. apply IH; [discriminate | discriminate | assumption | assumption].
Qed.

(** X18. Cache keys: an image key is never a batch key; different URLs
    have different image keys; two non-empty lists of comma-free URLs have
    the same batch key only if they are the same list in the same order;
    the empty list and the list of one empty URL share their key. *)
Theorem cache_keys_identify_requests :
  (forall u us, imageCacheKey u <> batchCacheKey us) /\
  (forall u u', imageCacheKey u = imageCacheKey u' -> u = u') /\
  (forall us vs,
     us <> [] -> vs <> [] ->
     Forall (fun u => commaFree u = true) us ->
     Forall (fun u => commaFree u = true) vs ->
     batchCacheKey us = batchCacheKey vs -> us = vs) /\
  batchCacheKey [] = batchCacheKey [""%string].
Proof.
  split; [|split; [|split]].
  - intros u us. unfold imageCacheKey, batchCacheKey. simpl. discriminate.
  - intros u u'. unfold imageCacheKey. simpl. intros E. simplify_eq. reflexivity.
  - intros us vs Hus Hvs Hcu Hcv. unfold batchCacheKey. simpl. intros E.
    apply join_comma_inj; try assumption. simplify_eq. assumption.
  - reflexivity.
Qed.

End KeyFacts.

Section FreshFacts.

Import JS.

Variable clock : nat -> Z.
Variable skinAnalysisOf : string -> Settled ImageAnalysisResult.t.
Variable textAnalysisOf : string -> Settled TextAnalysisResult.t.


Lemma startAnalysis_fresh u w :
  imageCacheFresh skinAnalysisOf textAnalysisOf w ->
  imageCacheFresh skinAnalysisOf textAnalysisOf (snd (startAnalysis clock u w)) /\
  startedFresh skinAnalysisOf textAnalysisOf (u, fst (startAnalysis clock u w)).
Proof.
  intros Hw. rewrite startAnalysis_spec. unfold startedFresh.
  destruct (imageCache w !! imageCacheKey u) as [entry|] eqn:E.
  - destruct (clock (ticks w) >? expiry entry)%Z; cbn [fst snd].
    + split; [|discriminate].
      intros u' e' H. cbn [imageCache] in H.
      apply lookup_delete_Some in H as [_ H]. eapply Hw, H.
    + split; [exact Hw|]. intros d [= <-]. eapply Hw, E.
  - cbn [fst snd]. split; [exact Hw | discriminate].
Qed.

Lemma finishAnalysis_fresh u w :
  imageCacheFresh skinAnalysisOf textAnalysisOf w -> imageCacheFresh skinAnalysisOf textAnalysisOf (snd (finishAnalysis clock skinAnalysisOf textAnalysisOf u w)).
Proof.
  intros Hw u' e' H. rewrite finishAnalysis_spec in H. cbn [snd] in H.
  rewrite setImageCache_spec in H. cbn [imageCache] in H.
  destruct (decide (imageCacheKey u = imageCacheKey u')) as [E|E].
  - rewrite E, lookup_insert_eq in H. apply imageCacheKey_inj in E.
    injection H as <-. cbn [entryData]. rewrite E. reflexivity.
  - rewrite lookup_insert_ne in H by assumption. eapply Hw, H.
Qed.

Lemma startAll_fresh batch w :
  imageCacheFresh skinAnalysisOf textAnalysisOf w ->
  imageCacheFresh skinAnalysisOf textAnalysisOf (snd (startAll clock batch w)) /\
  Forall (startedFresh skinAnalysisOf textAnalysisOf) (fst (startAll clock batch w)).
Proof.
  revert w. induction batch as [|u batch IH]; intros w Hw.
  - simpl. split; [exact Hw | constructor].
  - simpl.
    pose proof (startAnalysis_fresh u w Hw) as [Hw1 Hd].
    destruct (startAnalysis clock u w) as [cached w1]. cbn [fst snd] in *.
    specialize (IH w1 Hw1).
    destruct (startAll clock batch w1) as [started w2]. cbn [fst snd] in *.
    destruct IH as [Hw2 Hall]. split; [exact Hw2|].
    constructor; assumption.
Qed.

Lemma finishAll_fresh started w :
  imageCacheFresh skinAnalysisOf textAnalysisOf w -> Forall (startedFresh skinAnalysisOf textAnalysisOf) started ->
  fst (finishAll clock skinAnalysisOf textAnalysisOf started w) =
    map (fun s => fst (analyzeUncached skinAnalysisOf textAnalysisOf (fst s))) started /\
  imageCacheFresh skinAnalysisOf textAnalysisOf (snd (finishAll clock skinAnalysisOf textAnalysisOf started w)).
Proof.
  revert w. induction started as [|[u [cached|]] started IH]; intros w Hw Hall.
  - simpl. auto.
  - apply Forall_cons in Hall as [Hd Hall]. simpl.
    specialize (IH w Hw Hall).
    destruct (finishAll clock skinAnalysisOf textAnalysisOf started w)
      as [results w1]. cbn [fst snd] in *.
    destruct IH as [-> Hw1]. split; [|exact Hw1].
    rewrite (Hd cached eq_refl). reflexivity.
  - apply Forall_cons in Hall as [_ Hall]. simpl.
    pose proof (finishAnalysis_fresh u w Hw) as Hw1.
    pose proof (finishAnalysis_spec clock skinAnalysisOf textAnalysisOf u w) as Hf.
    destruct (finishAnalysis clock skinAnalysisOf textAnalysisOf u w)
      as [result w1]. cbn [fst snd] in *.
    specialize (IH w1 Hw1 Hall).
    destruct (finishAll clock skinAnalysisOf textAnalysisOf started w1)
      as [results w2]. cbn [fst snd] in *.
    destruct IH as [-> Hw2]. split; [|exact Hw2].
    injection Hf as -> _. reflexivity.
Qed.

Lemma runChunk_fresh batch w :
  imageCacheFresh skinAnalysisOf textAnalysisOf w ->
  fst (runChunk clock skinAnalysisOf textAnalysisOf batch w) = map (fun u => fst (analyzeUncached skinAnalysisOf textAnalysisOf u)) batch /\
  imageCacheFresh skinAnalysisOf textAnalysisOf (snd (runChunk clock skinAnalysisOf textAnalysisOf batch w)).
Proof.
  intros Hw. unfold runChunk.
  pose proof (startAll_spec clock batch w) as [Hfst _].
  pose proof (startAll_fresh batch w Hw) as [Hw1 Hall].
  destruct (startAll clock batch w) as [started w1]. cbn [fst snd] in *.
  destruct (finishAll_fresh started w1 Hw1 Hall) as [-> Hw2].
  split; [|exact Hw2]. rewrite <- Hfst, map_map. reflexivity.
Qed.

Lemma runChunks_fresh imageUrls w :
  imageCacheFresh skinAnalysisOf textAnalysisOf w ->
  fst (runChunks clock skinAnalysisOf textAnalysisOf imageUrls w) =
    map (fun u => fst (analyzeUncached skinAnalysisOf textAnalysisOf u)) imageUrls /\
  imageCacheFresh skinAnalysisOf textAnalysisOf (snd (runChunks clock skinAnalysisOf textAnalysisOf imageUrls w)).
Proof.
  revert w. induction imageUrls as [|u|u1 u2 rest IH] using list_pair_ind;
    intros w Hw.
  - simpl. auto.
  - apply (runChunk_fresh [u] w Hw).
  - cbn [runChunks].
    pose proof (runChunk_fresh [u1; u2] w Hw) as [Hres Hw1].
    destruct (runChunk clock skinAnalysisOf textAnalysisOf [u1; u2] w)
      as [batchResults w1]. cbn [fst snd] in *.
    specialize (IH w1 Hw1).
    destruct (runChunks clock skinAnalysisOf textAnalysisOf rest w1)
      as [results w2]. cbn [fst snd] in *.
    destruct IH as [-> Hw2]. split; [|exact Hw2].
    rewrite Hres. reflexivity.
Qed.

Lemma getBatchCache_fresh key w :
  imageCacheFresh skinAnalysisOf textAnalysisOf w -> imageCacheFresh skinAnalysisOf textAnalysisOf (snd (getBatchCache clock key w)).
Proof.
  intros Hw u e H. rewrite getBatchCache_imageCache in H. eapply Hw, H.
Qed.

Lemma analyzeImageFast_fresh u w :
  imageCacheFresh skinAnalysisOf textAnalysisOf w ->
  fst (analyzeImageFast clock skinAnalysisOf textAnalysisOf u w) = fst (analyzeUncached skinAnalysisOf textAnalysisOf u) /\
  imageCacheFresh skinAnalysisOf textAnalysisOf (snd (analyzeImageFast clock skinAnalysisOf textAnalysisOf u w)).
Proof.
  intros Hw. pose proof (startAnalysis_fresh u w Hw) as [Hw1 Hd].
  unfold analyzeImageFast, startedFresh in *.
  destruct (startAnalysis clock u w) as [[cached|] w1]; cbn [fst snd] in *.
  - split; [apply Hd; reflexivity | exact Hw1].
  - rewrite finishAnalysis_spec at 1. cbn [fst]. split; [reflexivity|].
    apply finishAnalysis_fresh, Hw1.
Qed.

Lemma emptyWorld_fresh : imageCacheFresh skinAnalysisOf textAnalysisOf emptyWorld.
Proof. intros u entry H. simpl in H. rewrite lookup_empty in H. discriminate. Qed.

Lemma clearWorldCache_fresh w : imageCacheFresh skinAnalysisOf textAnalysisOf (clearWorldCache w).
Proof. intros u entry H. simpl in H. rewrite lookup_empty in H. discriminate. Qed.

End FreshFacts.

Section BatchMore.

Import JS.

Variable clock : nat -> Z.
Variable skinAnalysisOf : string -> Settled ImageAnalysisResult.t.
Variable textAnalysisOf : string -> Settled TextAnalysisResult.t.

(** X19. When every entry of the image cache holds what analysing its URL
    gives (as at start-up), a single analysis returns the analysis of its
    URL and a batch that misses the batch cache returns the aggregate of
    the analyses of its URLs in input order, whatever the clock says and
    whatever is cached or expires on the way; both leave the image cache
    in such a state. *)
Theorem results_do_not_depend_on_cache_state (w : World) :
  imageCacheFresh skinAnalysisOf textAnalysisOf w ->
  (forall url,
     let run := analyzeImageFast clock skinAnalysisOf textAnalysisOf url w in
     fst run = fst (analyzeUncached skinAnalysisOf textAnalysisOf url) /\
     imageCacheFresh skinAnalysisOf textAnalysisOf (snd run)) /\
  (forall imageUrls,
     let run := analyzeImagesBatch clock skinAnalysisOf textAnalysisOf imageUrls w in
     (fst (getBatchCache clock (batchCacheKey imageUrls) w) = None ->
      fst run =
        aggregate
          (map (fun u => fst (analyzeUncached skinAnalysisOf textAnalysisOf u))
             imageUrls)) /\
     imageCacheFresh skinAnalysisOf textAnalysisOf (snd run)).
Proof.
  intros Hw. split.
  - intros url. apply analyzeImageFast_fresh, Hw.
  - intros imageUrls. cbn zeta.
    pose proof (getBatchCache_fresh clock skinAnalysisOf textAnalysisOf
                  (batchCacheKey imageUrls) w Hw) as Hw1.
    pose proof (analyzeImagesBatch_miss clock skinAnalysisOf textAnalysisOf
                  imageUrls w) as Hmiss.
    unfold analyzeImagesBatch in *.
    destruct (getBatchCache clock (batchCacheKey imageUrls) w) as [[cached|] w1];
      cbn [fst snd] in *.
    + split; [discriminate | exact Hw1].
    + pose proof (runChunks_fresh clock skinAnalysisOf textAnalysisOf
                    imageUrls w1 Hw1) as [Hres Hw2].
      destruct (runChunks clock skinAnalysisOf textAnalysisOf imageUrls w1)
        as [results w2]. cbn [fst snd] in *.
      split; [intros _; rewrite Hres; reflexivity|].
      intros u e H. rewrite setBatchCache_spec in H. cbn [imageCache] in H.
      eapply Hw2, H.
Qed.

(** X20. After [clearCache()] nothing is served from the cache: the next
    single analysis and the next batch are computed from the
    collaborators' answers. *)
Theorem clearCache_forces_new_analysis (w : World) :
  imageCache (clearWorldCache w) = ∅ /\
  batchCache (clearWorldCache w) = ∅ /\
  (forall url,
     fst (analyzeImageFast clock skinAnalysisOf textAnalysisOf url (clearWorldCache w)) =
     fst (analyzeUncached skinAnalysisOf textAnalysisOf url)) /\
  (forall imageUrls,
     fst (analyzeImagesBatch clock skinAnalysisOf textAnalysisOf imageUrls
            (clearWorldCache w)) =
     aggregate
       (map (fun u => fst (analyzeUncached skinAnalysisOf textAnalysisOf u))
          imageUrls)).
Proof.
  split; [reflexivity|]. split; [reflexivity|]. split.
  - intros url.
    apply (analyzeImageFast_fresh clock skinAnalysisOf textAnalysisOf url),
      clearWorldCache_fresh.
  - intros imageUrls.
    assert (Hmiss : getBatchCache clock (batchCacheKey imageUrls) (clearWorldCache w)
                    = (None, clearWorldCache w)).
    { rewrite getBatchCache_spec. cbn [batchCache clearWorldCache clearCache fst].
      rewrite lookup_empty. reflexivity. }
    rewrite (analyzeImagesBatch_miss clock skinAnalysisOf textAnalysisOf imageUrls
               (clearWorldCache w)) by (rewrite Hmiss; reflexivity).
    cbn [fst]. rewrite Hmiss. cbn [snd].
    f_equal.
    apply (runChunks_fresh clock skinAnalysisOf textAnalysisOf imageUrls),
      clearWorldCache_fresh.
Qed.

Local Open Scope Z_scope.

(** X21. A batch that missed the cache is stored under its key with an
    expiry 300 seconds after the time read by the write; the same batch
    asked again within that time gets the stored result, whatever the
    collaborators would answer now, and no cache changes. *)
Theorem repeated_batch_is_served_from_cache
    (laterSkinAnalysisOf : string -> Settled ImageAnalysisResult.t)
    (laterTextAnalysisOf : string -> Settled TextAnalysisResult.t)
    (imageUrls : list string) (w : World) :
  fst (getBatchCache clock (batchCacheKey imageUrls) w) = None ->
  let first := analyzeImagesBatch clock skinAnalysisOf textAnalysisOf imageUrls w in
  let written := clock (Nat.pred (ticks (snd first))) in
  clock (ticks (snd first)) <= written + 300 * 1000 ->
  let second :=
    analyzeImagesBatch clock laterSkinAnalysisOf laterTextAnalysisOf imageUrls
      (snd first) in
  batchCache (snd first) !! batchCacheKey imageUrls =
    Some {| entryData := fst first; expiry := written + 300 * 1000 |} /\
  fst second = fst first /\
  imageCache (snd second) = imageCache (snd first) /\
  batchCache (snd second) = batchCache (snd first) /\
  ticks (snd second) = S (ticks (snd first)).
Proof.
  intros Hmiss. cbn zeta.
  rewrite (analyzeImagesBatch_miss clock skinAnalysisOf textAnalysisOf imageUrls w Hmiss).
  cbn zeta.
  generalize (runChunks clock skinAnalysisOf textAnalysisOf imageUrls
                (snd (getBatchCache clock (batchCacheKey imageUrls) w))).
  intros [results w2]. cbn [fst snd].
  rewrite setBatchCache_spec. cbn [ticks Nat.pred batchCache imageCache].
  intros Hlive.
  split; [apply lookup_insert_eq|].
  unfold analyzeImagesBatch.
  rewrite getBatchCache_spec. cbn [ticks batchCache imageCache].
  rewrite lookup_insert_eq. cbn [expiry entryData].
  destruct (Z.gtb_spec (clock (S (ticks w2))) (clock (ticks w2) + 300 * 1000));
    [lia|].
  cbn [fst snd imageCache batchCache ticks]. auto.
Qed.

End BatchMore.

Lemma results_do_not_depend_on_cache_state_witness :
  fst (analyzeImageFast frozenClock (fun _ => Resolved mildSkin) (fun _ => Rejected)
         "a" emptyWorld) =
  fst (analyzeUncached (fun _ => Resolved mildSkin) (fun _ => Rejected) "a").
Proof.
  exact (proj1 (proj1 (results_do_not_depend_on_cache_state frozenClock
           (fun _ => Resolved mildSkin) (fun _ => Rejected) emptyWorld
           (emptyWorld_fresh _ _)) "a")).
Defined.

Lemma repeated_batch_is_served_from_cache_witness :
  let first :=
    analyzeImagesBatch frozenClock (fun _ => Resolved mildSkin) (fun _ => Rejected)
      ["a"; "b"] emptyWorld in
  fst (analyzeImagesBatch frozenClock (fun _ => Rejected)
         (fun _ => Resolved explicitCaption) ["a"; "b"] (snd first)) = fst first.
Proof.
  intros first.
  refine (proj1 (proj2 (repeated_batch_is_served_from_cache frozenClock
            (fun _ => Resolved mildSkin) (fun _ => Rejected)
            (fun _ => Rejected) (fun _ => Resolved explicitCaption)
            ["a"; "b"] emptyWorld _ _))).
  - reflexivity.
  - unfold frozenClock. lia.
Defined.

(** ** The batch verdict *)

Section AggregateMore.

Import JS.
Local Open Scope float_scope.

Lemma Math_max_zero_above x : (0.3 <? x) = true -> Math_max 0 x = x.
Proof.
  intros Hx. destruct (ltb_not_nan _ _ Hx) as [_ Hn].
  assert (H0 : (0 <? x) = true) by (apply (ltb_trans 0 0.3 x); [reflexivity | exact Hx]).
  unfold Math_max. rewrite Hn, H0. reflexivity.
Qed.

Lemma text_maximum_above results :
  List.filter hasExplicitTextAbove results <> [] ->
  (0.3 <? Math_max_list (map textConfidenceOf
                           (List.filter hasExplicitTextAbove results))) = true.
Proof.
  intros Hne.
  assert (Hall : Forall (fun d => hasExplicitTextAbove d = true)
                   (List.filter hasExplicitTextAbove results)).
  { apply Forall_forall. intros d Hd.
    apply list_elem_of_In, filter_In in Hd. apply Hd. }
  revert Hne Hall. generalize (List.filter hasExplicitTextAbove results).
  intros imgs Hne Hall.
  assert (Hnum : Forall (fun v => is_nan v = false) (map textConfidenceOf imgs)).
  { apply Forall_map. eapply Forall_impl; [exact Hall|].
    intros d Hd. cbn beta.
    destruct (textConfidenceOf_above d Hd) as (t & _ & -> & Hn). exact Hn. }
  assert (Hne' : map textConfidenceOf imgs <> []) by (destruct imgs; [congruence | discriminate]).
  destruct (Math_max_list_spec _ Hne' Hnum) as [Hin _].
  apply list_elem_of_fmap in Hin as (d & -> & Hd).
  rewrite Forall_forall in Hall. specialize (Hall d Hd).
  destruct (textConfidenceOf_above d Hall) as (t & Ht & -> & _).
  apply hasExplicitTextAbove_spec in Hall as (t' & Ht' & _ & Hgt).
  rewrite Ht in Ht'. injection Ht' as <-. exact Hgt.
Qed.

(** X22. The batch verdict by kind of finding. With no explicit image and
    no image with explicit text, hasExplicitContent is false and both
    confidences are 0, although detectedCategories can be non-empty (one
    keyword hit names its category without making the text explicit). With
    explicit text only, the batch confidence is the text confidence, which
    is above 0.3. With explicit images only, the text confidence is 0. An
    empty batch gives the all-empty result. *)
Theorem batch_verdict_by_kind_of_finding (results : list ImageAnalysisDetail.t) :
  let r := aggregate results in
  let anyExplicit := existsb ImageAnalysisDetail.isExplicit results in
  let anyText := existsb hasExplicitTextAbove results in
  (anyExplicit = false -> anyText = false ->
   r = {| ExplicitContentAnalysis.hasExplicitContent := false;
          ExplicitContentAnalysis.confidence := 0;
          ExplicitContentAnalysis.details := results;
          ExplicitContentAnalysis.hasExplicitText := false;
          ExplicitContentAnalysis.textConfidence := 0;
          ExplicitContentAnalysis.detectedCategories := collectCategories results |}) /\
  (anyExplicit = false -> anyText = true ->
   ExplicitContentAnalysis.hasExplicitContent r = true /\
   ExplicitContentAnalysis.hasExplicitText r = true /\
   ExplicitContentAnalysis.confidence r = ExplicitContentAnalysis.textConfidence r /\
   gt (ExplicitContentAnalysis.textConfidence r) 0.3 = true) /\
  (anyExplicit = true -> anyText = false ->
   ExplicitContentAnalysis.hasExplicitContent r = true /\
   ExplicitContentAnalysis.hasExplicitText r = false /\
   ExplicitContentAnalysis.textConfidence r = 0) /\
  aggregate [] =
    {| ExplicitContentAnalysis.hasExplicitContent := false;
       ExplicitContentAnalysis.confidence := 0;
       ExplicitContentAnalysis.details := [];
       ExplicitContentAnalysis.hasExplicitText := false;
       ExplicitContentAnalysis.textConfidence := 0;
       ExplicitContentAnalysis.detectedCategories := [] |} /\
  (ExplicitContentAnalysis.hasExplicitContent (aggregate [oneWordDetail]) = false /\
   ExplicitContentAnalysis.detectedCategories (aggregate [oneWordDetail]) =
     ["nudity"%string]).
Proof.
  cbn zeta. unfold aggregate. rewrite !filter_nonempty_existsb.
  split; [|split; [|split; [|split]]].
  - intros -> ->. reflexivity.
  - intros -> Ht. rewrite Ht.
    cbn [ExplicitContentAnalysis.hasExplicitContent ExplicitContentAnalysis.confidence
         ExplicitContentAnalysis.hasExplicitText ExplicitContentAnalysis.textConfidence
         orb].
    assert (Hne : List.filter hasExplicitTextAbove results <> []).
    { intros E. rewrite <- filter_nonempty_existsb, E in Ht. discriminate. }
    pose proof (text_maximum_above results Hne) as Hgt.
    rewrite (Math_max_zero_above _ Hgt). auto.
  - intros -> ->. auto.
  - reflexivity.
  - split; vm_compute; reflexivity.
Qed.

End AggregateMore.

Section SoundnessMore.

Variable clock : nat -> Z.
Variable skinAnalysisOf : string -> Settled ImageAnalysisResult.t.
Variable textAnalysisOf : string -> Settled TextAnalysisResult.t.

(** X23. The image cache files every detail under the key of its own URL:
    this holds of the empty cache and after [clearCache()], and every
    single analysis and every batch keeps it; under it a single analysis
    answers with a detail of the URL it was asked about, also when it is
    served from the cache. *)
Theorem image_cache_files_details_under_their_url :
  imageCacheSound emptyWorld /\
  (forall w, imageCacheSound (clearWorldCache w)) /\
  (forall w url,
     imageCacheSound w ->
     let run := analyzeImageFast clock skinAnalysisOf textAnalysisOf url w in
     ImageAnalysisDetail.url (fst run) = url /\ imageCacheSound (snd run)) /\
  (forall w imageUrls,
     imageCacheSound w ->
     imageCacheSound
       (snd (analyzeImagesBatch clock skinAnalysisOf textAnalysisOf imageUrls w))).
Proof.
  split; [exact emptyWorld_sound|]. split; [|split].
  - intros w u entry H. simpl in H. rewrite lookup_empty in H. discriminate.
  - intros w url Hw. cbn zeta.
    pose proof (startAnalysis_sound clock url w Hw) as [Hw1 Hd].
    unfold analyzeImageFast.
    destruct (startAnalysis clock url w) as [[cached|] w1]; cbn [fst snd] in *.
    + split; [apply Hd; reflexivity | exact Hw1].
    + pose proof (finishAnalysis_sound clock skinAnalysisOf textAnalysisOf url w1)
        as [Hu Hs].
      split; [exact Hu | exact (Hs Hw1)].
  - intros w imageUrls Hw.
    assert (Hw1 : imageCacheSound
                    (snd (getBatchCache clock (batchCacheKey imageUrls) w))).
    { intros u e H. rewrite getBatchCache_imageCache in H. eapply Hw, H. }
    unfold analyzeImagesBatch.
    destruct (getBatchCache clock (batchCacheKey imageUrls) w) as [[cached|] w1];
      cbn [fst snd] in *; [exact Hw1|].
    pose proof (runChunks_spec clock skinAnalysisOf textAnalysisOf imageUrls w1)
      as [_ Hs].
    destruct (Hs Hw1) as [_ Hw2].
    destruct (runChunks clock skinAnalysisOf textAnalysisOf imageUrls w1)
      as [results w2]. cbn [fst snd] in *.
    intros u e H. rewrite setBatchCache_spec in H. cbn [imageCache] in H.
    eapply Hw2, H.
Qed.

End SoundnessMore.

(** ** The two classifiers behind the orchestrator *)

Section PipelineFacts.

Import JS.
Local Open Scope float_scope.

Lemma gray_is_not_skin (v : Z) : isByte v -> isSkinPixel v v v = false.
Proof.
  intros [Hlo Hhi].
  assert (Hall : forallb (fun k => negb (isSkinPixel (Z.of_nat k) (Z.of_nat k)
                                           (Z.of_nat k))) (seq 0 256) = true)
    by (vm_compute; reflexivity).
  rewrite forallb_forall in Hall.
  specialize (Hall (Z.to_nat v) ltac:(apply in_seq; lia)).
  rewrite Z2Nat.id in Hall by lia. apply negb_true_iff, Hall.
Qed.

(** Zero divided by anything, times 100, is a zero or NaN: it is above no
    positive threshold. *)
Lemma zero_ratio_below y k :
  (0 <? k) = true -> gt (0 / y * 100) k = false.
Proof.
  intros Hk. unfold gt.
  rewrite FloatAxioms.ltb_spec, FloatAxioms.mul_spec, FloatAxioms.div_spec.
  rewrite FloatAxioms.ltb_spec in Hk.
  change (Prim2SF 0) with (S754_zero false) in *.
  destruct (Prim2SF y) as [s|s| |s m e]; cbn;
    destruct (Prim2SF k) as [sk|sk| |sk mk ek]; cbn in *;
    try reflexivity; try discriminate; destruct s, sk; try reflexivity; try discriminate.
Qed.

Lemma no_skin_verdict st :
  skinPixels st = 0%nat ->
  ImageAnalysisResult.isExplicit (verdict st) = false /\
  ImageAnalysisResult.confidence (verdict st) = 0.3.
Proof.
  intros Hs. rewrite verdict_fields.
  cbn [ImageAnalysisResult.isExplicit ImageAnalysisResult.confidence].
  unfold largeRegions, confidenceTier.
  assert (Hp : forall k, (0 <? k) = true -> gt (rawPercentage st) k = false).
  { intros k Hk. unfold rawPercentage. rewrite Hs.
    destruct (0 <? totalPixels st)%nat.
    - apply zero_ratio_below, Hk.
    - unfold gt. destruct (k <? 0) eqn:E; [|reflexivity].
      exfalso. pose proof (ltb_trans _ _ _ Hk E) as H. vm_compute in H. discriminate. }
  rewrite !Hp by reflexivity. rewrite andb_false_r.
  split; [reflexivity | vm_compute; reflexivity].
Qed.

Lemma skinAmong_zero img k :
  (forall j, (j < k)%nat -> sampleIsSkin img j = false) -> skinAmong img k = 0%nat.
Proof.
  induction k as [|k IH]; intros H; [reflexivity|].
  simpl. rewrite (H k) by lia. rewrite IH; [reflexivity|].
  intros j Hj. apply H. lia.
Qed.

Lemma grayscaleData_lookup vs j :
  grayscaleData vs !! (3 * j)%nat = vs !! j /\
  grayscaleData vs !! (3 * j + 1)%nat = vs !! j /\
  grayscaleData vs !! (3 * j + 2)%nat = vs !! j.
Proof.
  revert j. induction vs as [|v vs IH]; intros j.
  - cbn. rewrite !lookup_nil. auto.
  - destruct j as [|j].
    + cbn. auto.
    + replace (3 * S j)%nat with (S (S (S (3 * j)))) by lia.
      cbn [grayscaleData flat_map app Nat.add].
      specialize (IH j). cbn [lookup list_lookup] in *. exact IH.
Qed.

(** X13. Gray pixels (r = g = b, each a byte) are never skin, so an RGB
    image whose pixels are all gray, of any size, is never explicit for
    the skin classifier: the scan ends, isExplicit is false and the
    confidence is 0.3. *)
Theorem grayscale_image_is_never_explicit (vs : list Z) (w h : nat) :
  Forall isByte vs ->
  Forall (fun v => isSkinPixel v v v = false) vs /\
  exists r,
    analyzeImageForExplicitContent (Some (grayscaleImage vs w h)) = Some r /\
    ImageAnalysisResult.isExplicit r = false /\
    ImageAnalysisResult.confidence r = 0.3.
Proof.
  intros Hbytes.
  assert (Hgray : Forall (fun v => isSkinPixel v v v = false) vs).
  { eapply Forall_impl; [exact Hbytes|]. intros v. apply gray_is_not_skin. }
  split; [exact Hgray|].
  destruct (scan_terminates (grayscaleImage vs w h)) as (st & Hscan & Hpost);
    [cbn; lia|].
  exists (verdict st). unfold analyzeImageForExplicitContent. rewrite Hscan.
  split; [reflexivity|]. apply no_skin_verdict.
  destruct Hpost as (-> & _). apply skinAmong_zero. intros j _.
  unfold sampleIsSkin, sampleOffset. cbn [data channels grayscaleImage].
  replace (j * (3 * 8))%nat with (3 * (8 * j))%nat by lia.
  destruct (grayscaleData_lookup vs (8 * j)) as (-> & -> & ->).
  destruct (vs !! (8 * j)%nat) as [v|] eqn:E; [|reflexivity].
  cbn [isSkinSample]. rewrite Forall_forall in Hgray.
  apply Hgray. eapply list_elem_of_lookup_2, E.
Qed.




End PipelineFacts.

Lemma grayscale_image_is_never_explicit_witness :
  exists r,
    analyzeImageForExplicitContent (Some (grayscaleImage [128; 64]%Z 2 1)) = Some r /\
    ImageAnalysisResult.isExplicit r = false.
Proof.
  destruct (grayscale_image_is_never_explicit [128; 64]%Z 2 1) as (_ & r & Hr & He & _).
  - repeat constructor; unfold isByte; lia.
  - exists r. split; [exact Hr | exact He].
Defined.

(** ** What a batch leaves in the image cache *)

Section PopulateFacts.

Variable clock : nat -> Z.
Variable skinAnalysisOf : string -> Settled ImageAnalysisResult.t.
Variable textAnalysisOf : string -> Settled TextAnalysisResult.t.

Lemma startAnalysis_cached u w u' :
  cachedUrl w u' ->
  cachedUrl (snd (startAnalysis clock u w)) u' \/
  (u' = u /\ fst (startAnalysis clock u w) = None).
Proof.
  unfold cachedUrl. intros H. rewrite startAnalysis_spec.
  destruct (imageCache w !! imageCacheKey u) as [entry|] eqn:E; [|left; exact H].
  destruct (clock (ticks w) >? expiry entry)%Z; cbn [fst snd imageCache];
    [|left; exact H].
  destruct (decide (u' = u)) as [->|Hne]; [right; auto|].
  left. rewrite lookup_delete_ne; [exact H|].
  intros Hk. apply imageCacheKey_inj in Hk. congruence.
Qed.

Lemma startAnalysis_hit_cached u w d :
  fst (startAnalysis clock u w) = Some d ->
  cachedUrl (snd (startAnalysis clock u w)) u.
Proof.
  unfold cachedUrl. rewrite startAnalysis_spec.
  destruct (imageCache w !! imageCacheKey u) as [entry|] eqn:E; [|discriminate].
  destruct (clock (ticks w) >? expiry entry)%Z; cbn [fst snd imageCache];
    [discriminate|].
  intros _. rewrite E. eexists. reflexivity.
Qed.

Lemma startAll_cached batch w u :
  cachedUrl w u \/ u ∈ batch ->
  cachedUrl (snd (startAll clock batch w)) u \/
  (u, None) ∈ fst (startAll clock batch w).
Proof.
  revert w. induction batch as [|u0 batch IH]; intros w H.
  - destruct H as [H|H]; [left; exact H|]. apply elem_of_nil in H. destruct H.
  - cbn [startAll].
    pose proof (startAnalysis_cached u0 w u) as Hkeep.
    pose proof (startAnalysis_hit_cached u0 w) as Hhit.
    destruct (startAnalysis clock u0 w) as [c w1]. cbn [fst snd] in *.
    specialize (IH w1).
    destruct (startAll clock batch w1) as [started w2]. cbn [fst snd] in *.
    assert (Hcases : cachedUrl w1 u \/ u ∈ batch \/ (u = u0 /\ c = None)).
    { destruct H as [H|H].
      - destruct (Hkeep H) as [H1|H1]; auto.
      - apply elem_of_cons in H as [->|H]; [|auto].
        destruct c as [d|]; [left; eapply Hhit; reflexivity | auto]. }
    destruct Hcases as [H1|[H1|[-> ->]]].
    + destruct (IH (or_introl H1)) as [H2|H2]; [auto|].
      right. apply elem_of_cons. auto.
    + destruct (IH (or_intror H1)) as [H2|H2]; [auto|].
      right. apply elem_of_cons. auto.
    + right. apply elem_of_cons. auto.
Qed.

Lemma finishAnalysis_cached u w u' :
  u' = u \/ cachedUrl w u' ->
  cachedUrl (snd (finishAnalysis clock skinAnalysisOf textAnalysisOf u w)) u'.
Proof.
  unfold cachedUrl. rewrite finishAnalysis_spec. cbn [snd].
  rewrite setImageCache_spec. cbn [imageCache].
  intros [->|H]; [rewrite lookup_insert_eq; eexists; reflexivity|].
  destruct (decide (imageCacheKey u = imageCacheKey u')) as [E|E].
  - rewrite E, lookup_insert_eq. eexists. reflexivity.
  - rewrite lookup_insert_ne by exact E. exact H.
Qed.

Lemma finishAll_cached started w u :
  cachedUrl w u \/ (u, None) ∈ started ->
  cachedUrl (snd (finishAll clock skinAnalysisOf textAnalysisOf started w)) u.
Proof.
  revert w. induction started as [|[u0 [c|]] started IH]; intros w H.
  - destruct H as [H|H]; [exact H|]. apply elem_of_nil in H. destruct H.
  - cbn [finishAll]. specialize (IH w).
    destruct (finishAll clock skinAnalysisOf textAnalysisOf started w)
      as [results w1]. cbn [snd] in *.
    apply IH. destruct H as [H|H]; [auto|].
    apply elem_of_cons in H as [H|H]; [discriminate H | auto].
  - cbn [finishAll].
    pose proof (finishAnalysis_cached u0 w u) as Hf.
    destruct (finishAnalysis clock skinAnalysisOf textAnalysisOf u0 w)
      as [result w1]. cbn [snd] in *.
    specialize (IH w1).
    destruct (finishAll clock skinAnalysisOf textAnalysisOf started w1)
      as [results w2]. cbn [snd] in *.
    apply IH. destruct H as [H|H]; [auto|].
    apply elem_of_cons in H as [H|H]; [|auto].
    injection H as ->. auto.
Qed.

Lemma runChunk_cached batch w u :
  cachedUrl w u \/ u ∈ batch ->
  cachedUrl (snd (runChunk clock skinAnalysisOf textAnalysisOf batch w)) u.
Proof.
  intros H. unfold runChunk.
  pose proof (startAll_cached batch w u H) as Hs.
  destruct (startAll clock batch w) as [started w1]. cbn [fst snd] in *.
  apply finishAll_cached, Hs.
Qed.

Lemma runChunks_cached imageUrls w u :
  cachedUrl w u \/ u ∈ imageUrls ->
  cachedUrl (snd (runChunks clock skinAnalysisOf textAnalysisOf imageUrls w)) u.
Proof.
  revert w. induction imageUrls as [|u0|u1 u2 rest IH] using list_pair_ind;
    intros w H.
  - destruct H as [H|H]; [exact H|]. apply elem_of_nil in H. destruct H.
  - apply (runChunk_cached [u0] w u H).
  - cbn [runChunks].
    pose proof (runChunk_cached [u1; u2] w u) as Hc.
    destruct (runChunk clock skinAnalysisOf textAnalysisOf [u1; u2] w)
      as [batchResults w1]. cbn [snd] in *.
    specialize (IH w1).
    destruct (runChunks clock skinAnalysisOf textAnalysisOf rest w1)
      as [results w2]. cbn [snd] in *.
    apply IH. destruct H as [H|H]; [auto|].
    apply elem_of_cons in H as [->|H].
    + left. apply Hc. right. apply elem_of_cons. auto.
    + apply elem_of_cons in H as [->|H]; [|auto].
      left. apply Hc. right. apply elem_of_cons. right. apply elem_of_cons. auto.
Qed.

(** X25. A batch that misses the batch cache leaves an image-cache entry
    for every URL of the batch and loses the entry of no other URL:
    entries that expire on the way are written again before the batch
    ends. *)
Theorem batch_leaves_every_url_cached (imageUrls : list string) (w : World) :
  fst (getBatchCache clock (batchCacheKey imageUrls) w) = None ->
  let run := analyzeImagesBatch clock skinAnalysisOf textAnalysisOf imageUrls w in
  forall u, u ∈ imageUrls \/ cachedUrl w u -> cachedUrl (snd run) u.
Proof.
  intros Hmiss. cbn zeta. intros u H.
  rewrite (analyzeImagesBatch_miss clock skinAnalysisOf textAnalysisOf
             imageUrls w Hmiss).
  cbn zeta. cbn [snd].
  assert (H1 : cachedUrl (snd (getBatchCache clock (batchCacheKey imageUrls) w)) u
               \/ u ∈ imageUrls).
  { destruct H as [H|H]; [auto|]. left. unfold cachedUrl.
    rewrite getBatchCache_imageCache. exact H. }
  apply (runChunks_cached imageUrls) in H1.
  unfold cachedUrl in *. exact H1.
Qed.

End PopulateFacts.

Lemma batch_leaves_every_url_cached_witness :
  cachedUrl
    (snd (analyzeImagesBatch frozenClock (fun _ => Resolved mildSkin)
            (fun _ => Rejected) ["a"; "b"; "a"] emptyWorld)) "b".
Proof.
  refine (batch_leaves_every_url_cached frozenClock (fun _ => Resolved mildSkin)
            (fun _ => Rejected) ["a"; "b"; "a"] emptyWorld _ "b" _).
  - reflexivity.
  - left. apply elem_of_cons. right. apply elem_of_cons. left. reflexivity.
Defined.
